(** * Product-development agent: sandbox guard, tool bridge, code extraction

    A shallow embedding of [product-dev-agentic-ai.py]: the sandboxed file
    and shell tools ([safe_path], [write_file_tool], [run_shell_tool]), the
    fenced-block parser ([extract_code_block]) and the persistence steps that
    follow the group chat in [main].

    Conventions.
    - A Python [str] is a list of Unicode code points ([pystr]).
    - A call that may raise is a value of [exc]: [Return v] or [Raise e].
    - What the operating system decides (path resolution against the real
      file system, process spawning, the clock, the console) enters as an
      explicit argument or a [Section] variable. *)

From Stdlib Require Import NArith ZArith List String Ascii Bool Lia DecimalString.
From stdpp Require Import base option list gmap strings.

Set Default Proof Using "Type".
Local Open Scope N_scope.

(** ** Python strings *)

Module Py.

(** A Python [str]: a sequence of code points. *)
Definition pystr := list N.

Definition LF : N := 10.
Definition CR : N := 13.

(** [lit] reads a literal the way the Python source spells it: every
    character is its code point, and the escape [\n] is a line feed. *)
Fixpoint lit (s : string) : pystr :=
  match s with
  | EmptyString => []
  | String "\" (String "n" s') => LF :: lit s'
  | String c s' => N_of_ascii c :: lit s'
  end.

Arguments lit : simpl never.

(** [a.startswith(p)] *)
Fixpoint startswith (a p : pystr) {struct p} : bool :=
  match p, a with
  | [], _ => true
  | _ :: _, [] => false
  | x :: p', y :: a' => (x =? y) && startswith a' p'
  end.

Fixpoint drop_while {A} (f : A -> bool) (l : list A) : list A :=
  match l with
  | [] => []
  | x :: l' => if f x then drop_while f l' else l
  end.

(** The code points [str.isspace] accepts; [str.strip()] removes them from
    both ends. *)
Definition is_space (c : N) : bool :=
  ((9 <=? c) && (c <=? 13)) || ((28 <=? c) && (c <=? 32))
  || (c =? 133) || (c =? 160) || (c =? 5760)
  || ((8192 <=? c) && (c <=? 8202))
  || (c =? 8232) || (c =? 8233) || (c =? 8239) || (c =? 8287) || (c =? 12288).

Definition lstrip (s : pystr) : pystr := drop_while is_space s.
Definition rstrip (s : pystr) : pystr := rev (drop_while is_space (rev s)).
Definition strip (s : pystr) : pystr := rstrip (lstrip s).

(** [str(n)] for an [int]. *)
Definition str_of_Z (z : Z) : pystr :=
  map N_of_ascii (list_ascii_of_string (NilZero.string_of_int (Z.to_int z))).

(** Truthiness of a string: [not s] is [true] exactly on the empty string. *)
Definition truthy (s : pystr) : bool :=
  match s with [] => false | _ => true end.

End Py.
Import Py.

(** ** Exceptions *)

Inductive exn_class :=
  | ValueError | TypeError | IndexError | KeyError | EOFError
  | OSError | FileExistsError | FileNotFoundError | NotADirectoryError
  | IsADirectoryError | UnicodeEncodeError | TimeoutExpired | RuntimeError
  | KeyboardInterrupt | SystemExit.

(** [except Exception] catches every class but the two that derive from
    [BaseException] directly. *)
Definition is_Exception (c : exn_class) : bool :=
  match c with
  | KeyboardInterrupt | SystemExit => false
  | _ => true
  end.

Record exn := Exn { exn_cls : exn_class; exn_msg : pystr }.

Inductive exc (A : Type) :=
  | Return (a : A)
  | Raise (e : exn).
Arguments Return {A} a.
Arguments Raise {A} e.

(** Sequencing: the first exception raised aborts what follows. *)
#[global] Instance exc_bind : MBind exc := fun A B k m =>
  match m with
  | Return a => k a
  | Raise e => Raise e
  end.

(** [try: body except Exception as e: handler e] *)
Definition try_except {A} (body : exc A) (handler : exn -> exc A) : exc A :=
  match body with
  | Return a => Return a
  | Raise e => if is_Exception (exn_cls e) then handler e else Raise e
  end.

(** ** The shell tool *)

Record CompletedProcess := {
  returncode : Z;
  stdout : pystr;
  stderr : pystr
}.

Definition allowed_prefixes : list pystr :=
  [lit "echo "; lit "python "; lit "pytest"; lit "ls"; lit "cat "].

(** The policy test of [run_shell_tool]:
    [any(command.startswith(p) for p in allowed_prefixes)]. *)
Definition command_allowed (command : pystr) : bool :=
  existsb (startswith command) allowed_prefixes.

Definition WORK_DIR_str : pystr := lit "workspace".

Section ShellTool.
(** [shlex.split] and [subprocess.run(argv, cwd=..., capture_output=True,
    text=True, timeout=...)] are the operating system's: the tool is
    verified for every behaviour they may have. *)
Variable shlex_split : pystr -> exc (list pystr).
Variable subprocess_run : list pystr -> pystr -> N -> exc CompletedProcess.

(** The body of the [try] block. *)
Definition run_shell_body (command : pystr) : exc pystr :=
  argv ← shlex_split command;
  res ← subprocess_run argv WORK_DIR_str 30;
  let out := strip (stdout res) in
  let err := strip (stderr res) in
  let code := returncode res in
  Return (lit "exit=" ++ str_of_Z code ++ lit "\nstdout:\n" ++ out
          ++ lit "\n\nstderr:\n" ++ err).

Definition run_shell_tool (command : pystr) : exc pystr :=
  if negb (command_allowed command) then
    Return (lit "Rejected: command not allowed by policy.")
  else
    try_except (run_shell_body command)
      (fun e => Return (lit "Error running command: " ++ exn_msg e)).
End ShellTool.

(** ** Paths

    A [pathlib] path on POSIX: its anchor (none, [/] or [//]) and its
    components.  Construction drops empty components and [.] and keeps
    [..]. *)

Inductive anchor := Relative | Root | Root2.

#[global] Instance anchor_eq_dec : EqDecision anchor.
Proof. solve_decision. Defined.

#[global] Instance anchor_countable : Countable anchor.
Proof.
  refine (inj_countable'
    (fun a => match a with Relative => 0%nat | Root => 1%nat | Root2 => 2%nat end)
    (fun n => match n with 0%nat => Relative | 1%nat => Root | _ => Root2 end) _).
  by intros [].
Defined.

Definition PurePath : Type := anchor * list pystr.

Definition SLASH : N := 47.
Definition DOT : N := 46.

(** [s.split(sep)] for a one-character separator. *)
Fixpoint split_on (sep : N) (s : pystr) : list pystr :=
  match s with
  | [] => [[]]
  | c :: s' =>
      if c =? sep then [] :: split_on sep s'
      else match split_on sep s' with
           | [] => [[c]]
           | l :: ls => (c :: l) :: ls
           end
  end.

(** [posixpath.splitroot]: one leading slash or three and more give the root
    [/], exactly two give [//]. *)
Definition anchor_of (s : pystr) : anchor :=
  match s with
  | c1 :: rest =>
      if c1 =? SLASH then
        match rest with
        | c2 :: rest' =>
            if c2 =? SLASH then
              match rest' with
              | c3 :: _ => if c3 =? SLASH then Root else Root2
              | [] => Root2
              end
            else Root
        | [] => Root
        end
      else Relative
  | [] => Relative
  end.

Definition is_part (x : pystr) : bool :=
  negb (bool_decide (x = [])) && negb (bool_decide (x = [DOT])).

(** [pathlib.Path(s)] *)
Definition Path (s : pystr) : PurePath :=
  (anchor_of s, filter is_part (split_on SLASH s)).

(** [os.path.join(a, b)] for two segments. *)
Definition posix_join (a b : pystr) : pystr :=
  if startswith b [SLASH] then b
  else if bool_decide (a = []) || startswith (rev a) [SLASH] then a ++ b
  else a ++ [SLASH] ++ b.

Fixpoint join (sep : pystr) (l : list pystr) : pystr :=
  match l with
  | [] => []
  | [x] => x
  | x :: l' => x ++ sep ++ join sep l'
  end.

(** [str(p)] *)
Definition str_of_path (p : PurePath) : pystr :=
  match p with
  | (Relative, []) => [DOT]
  | (Relative, ps) => join [SLASH] ps
  | (Root, ps) => [SLASH] ++ join [SLASH] ps
  | (Root2, ps) => [SLASH; SLASH] ++ join [SLASH] ps
  end.

(** [base / rel] *)
Definition joinpath (base : PurePath) (rel : pystr) : PurePath :=
  Path (posix_join (str_of_path base) rel).

(** [p.parent]: the root and the empty relative path are their own parent. *)
Definition parent (p : PurePath) : PurePath :=
  (p.1, take (length p.2 - 1) p.2).

(** [p.parents]: the nearest ancestor first, the anchor last. *)
Definition parents (p : PurePath) : list PurePath :=
  map (fun n => (p.1, take n p.2)) (rev (seq 0 (length p.2))).

Definition WORK_DIR : PurePath := Path (lit "workspace").
Definition GENERATED_DIR : PurePath := Path (lit "generated_code").

(** [resolve_in cwd p]: what [p.resolve()] returns when the working
    directory is [/cwd], no component met on the way is a symbolic link and
    every component can be encoded for the operating system.  A component
    with a NUL character raises [ValueError]; otherwise the path is made
    absolute under the root [/] (a doubled leading slash is not kept) and
    its [..] components are folded away ([..] at the root stays at the
    root). *)
Definition step_component (acc : list pystr) (x : pystr) : list pystr :=
  if bool_decide (x = [DOT; DOT]) then take (length acc - 1) acc
  else acc ++ [x].

Definition has_nul (ps : list pystr) : bool :=
  existsb (fun x => bool_decide (0 ∈ x)) ps.

Definition resolve_in (cwd : list pystr) (p : PurePath) : exc PurePath :=
  if has_nul p.2 then Raise (Exn ValueError (lit "embedded null byte"))
  else
    Return (Root,
            foldl step_component []
              (match p.1 with
               | Relative => cwd ++ p.2
               | _ => p.2
               end)).

(** ** The file system, the console and the clock

    A file is named by the path the program opens it with: [write_file_tool]
    opens resolved absolute paths, the archival writer paths relative to the
    working directory. *)

Inductive node := Dir | File (content : pystr).

Inductive console_event :=
  | Printed (line : pystr)     (* [print(line)] *)
  | Prompted (prompt : pystr). (* the prompt of an [input(prompt)] *)

Record world := World {
  files : gmap PurePath node;
  console : list console_event;
  keyboard : list pystr;        (* the lines the operator will type *)
  now : pystr                   (* [time.strftime("%Y%m%d-%H%M%S")] *)
}.

Definition set_files (f : gmap PurePath node) (w : world) : world :=
  World f (console w) (keyboard w) (now w).

(** Stateful code: from a world to an outcome and the world it leaves
    behind, which on an exception is the world at the [raise]. *)
Definition io (A : Type) : Type := world -> exc A * world.

#[global] Instance io_ret : MRet io := fun A a w => (Return a, w).
#[global] Instance io_bind : MBind io := fun A B k m w =>
  match m w with
  | (Return a, w') => k a w'
  | (Raise e, w') => (Raise e, w')
  end.

Definition lift {A} (m : exc A) : io A := fun w => (m, w).
Definition raise {A} (e : exn) : io A := fun w => (Raise e, w).

Definition print (line : pystr) : io unit := fun w =>
  (Return tt, World (files w) (console w ++ [Printed line]) (keyboard w) (now w)).

Definition input (prompt : pystr) : io pystr := fun w =>
  let c := console w ++ [Prompted prompt] in
  match keyboard w with
  | [] => (Raise (Exn EOFError (lit "EOF when reading a line")),
           World (files w) c [] (now w))
  | l :: ls => (Return l, World (files w) c ls (now w))
  end.

Definition strftime : io pystr := fun w => (Return (now w), w).

(** A node lookup; a path with no components is the anchor directory. *)
Definition stat (f : gmap PurePath node) (p : PurePath) : option node :=
  match p.2 with
  | [] => Some Dir
  | _ => f !! p
  end.

(** [p.mkdir(parents=True, exist_ok=True)] on the ancestors-then-self chain
    [chain], outermost first: a missing directory is created, an existing one
    is kept, a regular file in the way raises: [FileExistsError] when it is
    the directory asked for, [NotADirectoryError] when it lies above it. *)
Fixpoint mkdir_chain (chain : list PurePath) (f : gmap PurePath node)
  : exc (gmap PurePath node) :=
  match chain with
  | [] => Return f
  | q :: chain' =>
      match stat f q with
      | None => mkdir_chain chain' (<[q := Dir]> f)
      | Some Dir => mkdir_chain chain' f
      | Some (File _) =>
          match chain' with
          | [] => Raise (Exn FileExistsError (str_of_path q))
          | _ :: _ => Raise (Exn NotADirectoryError (str_of_path q))
          end
      end
  end.

Definition mkdir_parents (p : PurePath) : io unit := fun w =>
  match mkdir_chain (rev (parents p) ++ [p]) (files w) with
  | Return f' => (Return tt, set_files f' w)
  | Raise e => (Raise e, w)
  end.

(** What [encoding="utf-8"] can encode: every code point but the
    surrogates. *)
Definition utf8_encodable (s : pystr) : bool :=
  forallb (fun c => (c <? 55296) || ((57343 <? c) && (c <=? 1114111))) s.

(** [p.write_text(content, encoding="utf-8")]: opening creates or truncates
    the file, then the encoded text is written.  An [OSError] carries the
    path as its message; the limits of the operating system on the length
    of a name, on permissions and on free space are not modelled. *)
Definition write_text (p : PurePath) (content : pystr) : io unit := fun w =>
  match stat (files w) p with
  | Some Dir => (Raise (Exn IsADirectoryError (str_of_path p)), w)
  | _ =>
      match stat (files w) (parent p) with
      | None => (Raise (Exn FileNotFoundError (str_of_path p)), w)
      | Some (File _) => (Raise (Exn NotADirectoryError (str_of_path p)), w)
      | Some Dir =>
          if utf8_encodable content then
            (Return tt, set_files (<[p := File content]> (files w)) w)
          else
            (Raise (Exn UnicodeEncodeError (lit "surrogates not allowed")),
             set_files (<[p := File []]> (files w)) w)
      end
  end.

(** ** The file tool *)

Section FileTool.
(** [Path.resolve()] is the operating system's: it makes the path absolute,
    folds [..] and follows symbolic links, and it may raise. *)
Variable resolve : PurePath -> exc PurePath.

Definition safe_path (rel_path : pystr) : exc PurePath :=
  p ← resolve (joinpath WORK_DIR rel_path);
  root ← resolve WORK_DIR;
  if negb (bool_decide (root ∈ parents p)) && negb (bool_decide (p = root))
  then Raise (Exn ValueError (lit "Unsafe path."))
  else Return p.

(** An argument left at its default is [None]. *)
Definition not_arg (a : option pystr) : bool :=
  match a with
  | None => true
  | Some s => negb (truthy s)
  end.

Definition write_file_tool (filename content : option pystr) : io pystr :=
  if not_arg filename || not_arg content then
    mret (lit "Error: Missing filename or content.")
  else
    path ← lift (safe_path (default [] filename));
    _ ← mkdir_parents (parent path);
    _ ← write_text path (default [] content);
    mret (lit "Wrote file: " ++ str_of_path path).
End FileTool.

(** ** String methods used by the parser *)

Module PyText.

(** The line boundaries of [str.splitlines()]. *)
Definition is_linebreak (c : N) : bool :=
  ((10 <=? c) && (c <=? 13)) || ((28 <=? c) && (c <=? 30))
  || (c =? 133) || (c =? 8232) || (c =? 8233).

(** [s.splitlines()]: the lines without their terminators; [\r\n] is one
    terminator, and a terminator at the very end opens no further line. *)
Fixpoint splitlines (s : pystr) : list pystr :=
  match s with
  | [] => []
  | c :: s' =>
      if is_linebreak c then
        [] :: (if c =? CR then
                 match s' with
                 | c' :: s'' => if c' =? LF then splitlines s'' else splitlines s'
                 | [] => []
                 end
               else splitlines s')
      else match splitlines s' with
           | [] => [[c]]
           | l :: ls => (c :: l) :: ls
           end
  end.

(** [s.lower()].  Both uses compare the result with an ASCII literal, so
    what matters is which code points lower to ASCII ones: the capital
    letters, the Kelvin sign (to [k]) and the dotted capital I (to [i]
    followed by a combining dot).  Every other code point is left as it is,
    where Python may return another non-ASCII code point. *)
Definition lower_char (c : N) : pystr :=
  if (65 <=? c) && (c <=? 90) then [c + 32]
  else if c =? 8490 then [107]
  else if c =? 304 then [105; 775]
  else [c].

Definition lower (s : pystr) : pystr := flat_map lower_char s.

(** [s.split(sep, 1)] for a one-character separator. *)
Fixpoint split_once (sep : N) (s : pystr) : list pystr :=
  match s with
  | [] => [[]]
  | c :: s' =>
      if c =? sep then [[]; s']
      else match split_once sep s' with
           | l :: ls => (c :: l) :: ls
           | [] => [[c]]
           end
  end.

(** [l[i]] *)
Definition index {A} (l : list A) (i : nat) : exc A :=
  match l !! i with
  | Some x => Return x
  | None => Raise (Exn IndexError (lit "list index out of range"))
  end.

End PyText.
Import PyText.

(** ** The fenced-block pattern

    [re.search(r"```[a-zA-Z0-9_-]*\n(.*?)```", text, flags=re.S)], returning
    [group(1)] of the match.  The search takes the leftmost position at which
    the pattern matches.  At a position, after the three backticks, the
    greedy class can only stop where the run of tag characters ends, since a
    line feed must follow and is not a tag character; the lazy group, in
    which [.] matches every character, ends at the first closing fence. *)

Definition BACKTICK : N := 96.
Definition COLON : N := 58.
Definition fence : pystr := [BACKTICK; BACKTICK; BACKTICK].

Definition is_tag_char (c : N) : bool :=
  ((97 <=? c) && (c <=? 122)) || ((65 <=? c) && (c <=? 90))
  || ((48 <=? c) && (c <=? 57)) || (c =? 95) || (c =? 45).

(** [(.*?)```]: the shortest prefix that a fence follows. *)
Fixpoint until_fence (s : pystr) : option pystr :=
  if startswith s fence then Some []
  else match s with
       | [] => None
       | c :: s' => cons c <$> until_fence s'
       end.

(** The pattern matched at the head of [s]. *)
Definition match_here (s : pystr) : option pystr :=
  if startswith s fence then
    match drop_while is_tag_char (drop 3 s) with
    | c :: body => if c =? LF then until_fence body else None
    | [] => None
    end
  else None.

Fixpoint re_search (s : pystr) : option pystr :=
  match match_here s with
  | Some g => Some g
  | None => match s with
            | [] => None
            | _ :: s' => re_search s'
            end
  end.

(** ** Dictionaries *)

Inductive pyval := PNone | PStr (s : pystr).

Definition val_truthy (v : pyval) : bool :=
  match v with
  | PNone => false
  | PStr s => truthy s
  end.

(** [d.get(k)] *)
Definition get (d : gmap string pyval) (k : string) : pyval :=
  default PNone (d !! k).

(** [d[k]] *)
Definition subscript (d : gmap string pyval) (k : string) : exc pyval :=
  match d !! k with
  | Some v => Return v
  | None => Raise (Exn KeyError (lit k))
  end.

(** [a or b] *)
Definition py_or (a b : pyval) : pyval := if val_truthy a then a else b.

(** A value used where a [str] is required. *)
Definition as_str (v : pyval) : exc pystr :=
  match v with
  | PStr s => Return s
  | PNone => Raise (Exn TypeError (lit "expected string or bytes-like object"))
  end.

(** [f"{v}"] *)
Definition format_val (v : pyval) : pystr :=
  match v with
  | PStr s => s
  | PNone => lit "None"
  end.

(** ** Extraction *)

Definition extract_code_block (text : pystr) : exc (gmap string pyval) :=
  match re_search text with
  | None => Return {[ "code" := PStr [] ]}
  | Some code =>
      first_line ← (if truthy code
                    then l ← index (splitlines code) 0; Return (strip l)
                    else Return []);
      if startswith (lower first_line) (lit "# file:") then
        after ← index (split_once COLON first_line) 1;
        let filename := strip after in
        let code' := join [LF] (drop 1 (splitlines code)) in
        Return (<[ "filename" := PStr filename ]> {[ "code" := PStr code' ]})
      else
        Return (<[ "filename" := PNone ]> {[ "code" := PStr code ]})
  end.

(** ** Persistence and the steps after the chat *)

(** The marker the source spells in front of the confirmation. *)
Definition saved_prefix : pystr :=
  [226; 339; 8230] ++ lit " Code saved for end users at ".

Definition save_generated_code (parsed : gmap string pyval) : io pystr :=
  if negb (val_truthy (get parsed "code")) then
    mret (lit "No code found to save.")
  else
    ts ← strftime;
    let filename := py_or (get parsed "filename") (PStr (lit "snippet.py")) in
    let dest := joinpath GENERATED_DIR (ts ++ lit "-" ++ format_val filename) in
    code ← lift (v ← subscript parsed "code"; as_str v);
    _ ← write_text dest code;
    mret (saved_prefix ++ str_of_path dest).

(** [(m.get("name") or "").lower() == "developer"] *)
Definition is_developer (m : gmap string pyval) : bool :=
  bool_decide (lower (format_val (py_or (get m "name") (PStr []))) = lit "developer").

(** [l[-1]] *)
Definition last_item {A} (l : list A) : exc A :=
  match last l with
  | Some x => Return x
  | None => Raise (Exn IndexError (lit "list index out of range"))
  end.

Section Driver.
Variable resolve : PurePath -> exc PurePath.

(** [main] from the end of the group chat to the workspace write, on the
    chat's message list [messages]. *)
Definition main_after_chat (messages : list (gmap string pyval)) : io unit :=
  let dev_msgs := filter (fun m => is_developer m = true) messages in
  code_text ← lift (if bool_decide (dev_msgs = []) then Return []
                    else m ← last_item dev_msgs;
                         v ← subscript m "content"; as_str v);
  parsed ← lift (extract_code_block code_text);
  msg ← save_generated_code parsed;
  _ ← print msg;
  if val_truthy (get parsed "code") then
    let filename := format_val (py_or (get parsed "filename") (PStr (lit "app.py"))) in
    _ ← print (lit "\nDeveloper proposed file: " ++ filename);
    _ ← print (lit "Preview (first 20 lines):");
    code ← lift (v ← subscript parsed "code"; as_str v);
    _ ← print (join [LF] (take 20 (splitlines code)));
    answer ← input (lit "\nApprove writing this file to workspace/? (y/n): ");
    if bool_decide (lower (strip answer) = lit "y") then
      result ← write_file_tool resolve (Some filename) (Some code);
      print result
    else
      print (lit "Skipped writing file to workspace.")
  else mret tt.
End Driver.

(** ** The transcript *)

Definition TRANSCRIPTS_DIR : PurePath := Path (lit "transcripts").

(** [d.get(k, dflt)] *)
Definition get_default (d : gmap string pyval) (k : string) (dflt : pyval)
  : pyval :=
  default dflt (d !! k).

(** One entry of the transcript, [f"### {role}\n\n{content}\n\n---\n"]. *)
Definition transcript_block (m : gmap string pyval) : pystr :=
  let role := py_or (py_or (get m "name") (get m "role"))
                (PStr (lit "unknown")) in
  let content := get_default m "content" (PStr []) in
  lit "### " ++ format_val role ++ lit "\n\n" ++ format_val content
  ++ lit "\n\n---\n".

(** The marker the source spells in front of the transcript notice. *)
Definition transcript_notice : pystr :=
  [LF; 240; 376; 8220; 8217] ++ lit " Transcript saved to: ".

Definition save_transcript (messages : list (gmap string pyval)) : io unit :=
  ts ← strftime;
  let path := joinpath TRANSCRIPTS_DIR (lit "session-" ++ ts ++ lit ".md") in
  let lines := map transcript_block messages in
  _ ← write_text path (join [LF] lines);
  print (transcript_notice ++ str_of_path path ++ [LF]).

(** ** The driver *)

Definition ARROW : pystr := [226; 8224; 8217].

Definition banner : pystr :=
  lit "\n=== Agentic MVP (fixed): PM " ++ ARROW ++ lit " Dev " ++ ARROW
  ++ lit " QA with Human approvals ===\n".

(** The message that opens the group chat. *)
Definition kickoff (feature : pystr) : pystr :=
  lit "You are a cross-functional team. "
  ++ lit "PM: refine requirements and pass a concise spec to Dev. "
  ++ lit "Dev: propose minimal code with a single file and tests. "
  ++ lit "QA: review and suggest improvements.\n\n"
  ++ lit "Feature request: " ++ feature ++ lit "\n"
  ++ lit "Follow the order PM " ++ ARROW ++ lit " Dev " ++ ARROW ++ lit " QA.".

Section Main.
Variable resolve : PurePath -> exc PurePath.
(** [human.initiate_chat(manager, message=...)] with a fresh [GroupChat],
    followed by reading [group.messages]: the conversation is the chat
    library's and the language model's. *)
Variable group_chat : pystr -> io (list (gmap string pyval)).

Definition main : io unit :=
  _ ← print banner;
  feature ← input (lit "Enter a small feature request (e.g., 'Build a CLI that reverses a string'): ");
  messages ← group_chat (kickoff feature);
  _ ← main_after_chat resolve messages;
  _ ← save_transcript messages;
  print (lit "Done.\n").
End Main.

(** ** Provider configuration *)

(** [os.getenv(k, dflt)] on the environment [env]. *)
Definition getenv (env : gmap string pystr) (k : string) (dflt : pyval)
  : pyval :=
  match env !! k with
  | Some v => PStr v
  | None => dflt
  end.

(** The dictionary [build_llm_config] returns: the one-entry [config_list]
    and the [temperature], kept as the literal the source writes. *)
Record llm_config := {
  config_list : list (gmap string pyval);
  temperature : pystr
}.

Definition build_llm_config (env : gmap string pystr) : llm_config :=
  let provider :=
    lower (format_val (getenv env "MODEL_PROVIDER" (PStr (lit "openai")))) in
  if bool_decide (provider = lit "ollama") then
    let base_url :=
      getenv env "OLLAMA_BASE_URL" (PStr (lit "http://localhost:11434/v1")) in
    let model := getenv env "OLLAMA_MODEL" (PStr (lit "llama3:8b")) in
    {| config_list :=
         [ {[ "model" := model;
              "api_key" := getenv env "OLLAMA_API_KEY" (PStr (lit "ollama"));
              "base_url" := base_url ]} ];
       temperature := lit "0.2" |}
  else
    {| config_list :=
         [ {[ "model" := getenv env "OPENAI_MODEL" (PStr (lit "gpt-4o-mini"));
              "api_key" := getenv env "OPENAI_API_KEY" PNone ]} ];
       temperature := lit "0.2" |}.

(** ** Notions the properties are stated with *)

(** [a] occurs in [s] as a contiguous run. *)
Definition occurs_in (a s : pystr) : Prop :=
  exists pre post, s = pre ++ a ++ post.

Definition policy_rejection : pystr :=
  lit "Rejected: command not allowed by policy.".

Definition index_error : exn := Exn IndexError (lit "list index out of range").

Definition missing_argument : pystr := lit "Error: Missing filename or content.".
Definition unsafe_path : exn := Exn ValueError (lit "Unsafe path.").

(** How [run_shell_tool] reports an exception caught around the run. *)
Definition run_error (e : exn) : pystr :=
  lit "Error running command: " ++ exn_msg e.

(** How [run_shell_tool] reports a finished process. *)
Definition run_report (res : CompletedProcess) : pystr :=
  lit "exit=" ++ str_of_Z (returncode res) ++ lit "\nstdout:\n"
  ++ strip (stdout res) ++ lit "\n\nstderr:\n" ++ strip (stderr res).

(** The command is executed: it is split by [shlex_split], the argument
    list is run by [subprocess_run] in [workspace] with the timeout 30, and
    what the tool returns is the report of the finished process, or the
    formatted error of the split or of the run ([except Exception] lets an
    interrupt through). *)
Definition executes
    (shlex_split : pystr -> exc (list pystr))
    (subprocess_run : list pystr -> pystr -> N -> exc CompletedProcess)
    (command : pystr) : Prop :=
  let tool := run_shell_tool shlex_split subprocess_run in
  let caught (e : exn) : exc pystr :=
    if is_Exception (exn_cls e) then Return (run_error e) else Raise e in
  (forall argv res,
     shlex_split command = Return argv ->
     subprocess_run argv WORK_DIR_str 30 = Return res ->
     tool command = Return (run_report res))
  /\ (forall argv e,
        shlex_split command = Return argv ->
        subprocess_run argv WORK_DIR_str 30 = Raise e ->
        tool command = caught e)
  /\ (forall e, shlex_split command = Raise e -> tool command = caught e).

(** The fenced text rebuilt from an artifact, laid out as the developer is
    asked to write it: the opening fence on a line of its own, the
    [# file: <name>] line when a filename was extracted, the body, the
    closing fence. *)
Definition reconstruct (d : gmap string pyval) : pystr :=
  fence ++ [LF]
  ++ match get d "filename" with
     | PStr name => lit "# file: " ++ name ++ [LF]
     | PNone => []
     end
  ++ format_val (get d "code") ++ fence.

(** The test for [occurs_in]. *)
Fixpoint occursb (a s : pystr) : bool :=
  startswith s a
  || match s with
     | [] => false
     | _ :: s' => occursb a s'
     end.

(** No closing or opening fence inside [s]. *)
Definition no_fence (s : pystr) : Prop := ~ occurs_in fence s.

(** No line boundary inside [l]: [l] is (part of) one line. *)
Definition one_line (l : pystr) : Prop :=
  Forall (fun c => is_linebreak c = false) l.

(** Neither end of [s] is white space. *)
Definition stripped (s : pystr) : Prop :=
  (forall c, head s = Some c -> is_space c = false)
  /\ (forall c, last s = Some c -> is_space c = false).

(** The artifact carries code: [parsed.get("code")] is truthy. *)
Definition nonempty_artifact (d : gmap string pyval) : Prop :=
  val_truthy (get d "code") = true.







(** The text [save_transcript] writes, and where. *)
Definition transcript_text (messages : list (gmap string pyval)) : pystr :=
  join [LF] (map transcript_block messages).

Definition transcript_path (w : world) : PurePath :=
  joinpath TRANSCRIPTS_DIR (lit "session-" ++ now w ++ lit ".md").

(** The prompt that opens [main], and the world after the banner and the
    operator's request. *)
Definition feature_prompt : pystr :=
  lit "Enter a small feature request (e.g., 'Build a CLI that reverses a string'): ".

Definition after_request (w : world) (kb : list pystr) : world :=
  World (files w) (console w ++ [Printed banner; Prompted feature_prompt])
    kb (now w).

(** * Properties *)

(** ** Strings *)

Lemma startswith_spec (a p : pystr) :
  startswith a p = true <-> exists r, a = p ++ r.
Proof.
  revert a. induction p as [|x p IH]; intros a; simpl.
  - split; [intros _; by exists a | done].
  - destruct a as [|y a]; simpl.
    + split; [done | intros [r Hr]; discriminate].
    + rewrite andb_true_iff, N.eqb_eq, IH. split.
      * intros [-> [r ->]]. by exists r.
      * intros [r Hr]. injection Hr as -> ->. eauto.
Qed.

Lemma startswith_app (p r : pystr) : startswith (p ++ r) p = true.
Proof. apply startswith_spec. by exists r. Qed.

(** ** The command policy *)

Lemma command_allowed_spec (command : pystr) :
  command_allowed command = true <->
  exists p rest, p ∈ allowed_prefixes /\ command = p ++ rest.
Proof.
  unfold command_allowed. rewrite existsb_exists. split.
  - intros (p & Hin & Hp). apply startswith_spec in Hp as [rest ->].
    exists p, rest. split; [by apply list_elem_of_In | done].
  - intros (p & rest & Hin & ->). exists p.
    split; [by apply list_elem_of_In | apply startswith_app].
Qed.

Section ShellToolFacts.
Variable shlex_split : pystr -> exc (list pystr).
Variable subprocess_run : list pystr -> pystr -> N -> exc CompletedProcess.

Abbreviation tool := (run_shell_tool shlex_split subprocess_run).
Abbreviation body := (run_shell_body shlex_split subprocess_run).

Lemma run_shell_tool_rejected (command : pystr) :
  command_allowed command = false -> tool command = Return policy_rejection.
Proof. intros H. unfold run_shell_tool. by rewrite H. Qed.

Lemma run_shell_tool_allowed (command : pystr) :
  command_allowed command = true ->
  tool command = try_except (body command) (fun e => Return (run_error e)).
Proof. intros H. unfold run_shell_tool. by rewrite H. Qed.

Lemma run_shell_tool_raise (command : pystr) (e : exn) :
  tool command = Raise e -> is_Exception (exn_cls e) = false.
Proof.
  unfold run_shell_tool, try_except.
  destruct (negb _); [discriminate |].
  destruct (body command) as [s | e']; [discriminate |].
  destruct (is_Exception (exn_cls e')) eqn:He; [discriminate |].
  by intros [= <-].
Qed.

Lemma run_shell_body_ok (command : pystr) argv res :
  shlex_split command = Return argv ->
  subprocess_run argv WORK_DIR_str 30 = Return res ->
  body command = Return (run_report res).
Proof.
  intros H1 H2. unfold run_shell_body.
  rewrite H1; simpl. by rewrite H2.
Qed.

Lemma run_shell_body_spawn_fails (command : pystr) argv e :
  shlex_split command = Return argv ->
  subprocess_run argv WORK_DIR_str 30 = Raise e ->
  body command = Raise e.
Proof.
  intros H1 H2. unfold run_shell_body.
  rewrite H1; simpl. by rewrite H2.
Qed.
End ShellToolFacts.

Lemma allowed_executes
    (shlex_split : pystr -> exc (list pystr))
    (subprocess_run : list pystr -> pystr -> N -> exc CompletedProcess)
    (command : pystr) :
  command_allowed command = true ->
  executes shlex_split subprocess_run command.
Proof.
  intros Ha. unfold executes. cbv zeta.
  rewrite run_shell_tool_allowed by done.
  unfold run_shell_body, try_except. split; [| split].
  - intros argv res -> . cbn [mbind exc_bind]. by intros ->.
  - intros argv e ->. cbn [mbind exc_bind]. by intros ->.
  - by intros e ->.
Qed.

(** C1, as stated, fails: of the three inputs the claim lists, the chained
    command [echo hi && rm -rf /] is not rejected by the policy test. *)
Lemma chained_command_not_rejected :
  ~ (command_allowed (lit "rm -rf /") = false
     /\ command_allowed (lit "echo hi") = true
     /\ command_allowed (lit "echo hi && rm -rf /") = false).
Proof. intros (_ & _ & H). vm_compute in H. discriminate. Qed.

(** C1, amended: [rm -rf /] is rejected with the policy message whatever the
    operating system would do, [echo hi] is allowed, and
    [echo hi && rm -rf /] is allowed too, since it begins with the prefix
    [echo ]: the tool goes on to execute it, splitting the text and running
    the argument list, and returns the outcome of that run. *)
Theorem policy_examples
    (shlex_split : pystr -> exc (list pystr))
    (subprocess_run : list pystr -> pystr -> N -> exc CompletedProcess) :
  run_shell_tool shlex_split subprocess_run (lit "rm -rf /")
    = Return policy_rejection
  /\ command_allowed (lit "echo hi") = true
  /\ command_allowed (lit "echo hi && rm -rf /") = true
  /\ executes shlex_split subprocess_run (lit "echo hi && rm -rf /").
Proof.
  split; [by apply run_shell_tool_rejected |].
  split; [done |]. split; [done |].
  by apply allowed_executes.
Qed.

(** C1 at work: run without a shell, the chained text is one [echo] with six
    arguments, and its output comes back in the report. *)
Lemma policy_examples_witness :
  run_shell_tool
    (fun _ => Return [lit "echo"; lit "hi"; lit "&&"; lit "rm"; lit "-rf";
                      lit "/"])
    (fun _ _ _ => Return {| returncode := 0;
                            stdout := lit "hi && rm -rf /\n";
                            stderr := [] |})
    (lit "echo hi && rm -rf /")
  = Return (lit "exit=0\nstdout:\nhi && rm -rf /\n\nstderr:\n").
Proof.
  destruct (policy_examples
    (fun _ => Return [lit "echo"; lit "hi"; lit "&&"; lit "rm"; lit "-rf";
                      lit "/"])
    (fun _ _ _ => Return {| returncode := 0;
                            stdout := lit "hi && rm -rf /\n";
                            stderr := [] |}))
    as (_ & _ & _ & Hrun & _).
  rewrite (Hrun _ _ eq_refl eq_refl). reflexivity.
Defined.

(** C5: [run_shell_tool] keeps execution failures to itself.  A command that
    fails the policy test returns the policy message; whatever the tool
    raises is not an [Exception] (only an interrupt of the interpreter passes
    through); a failure to split or spawn and a timeout come back as the
    formatted error string; a finished run was started in [workspace] with
    the timeout 30 and comes back as the report of exit code, stdout and
    stderr. *)
Theorem run_shell_tool_contains_failures
    (shlex_split : pystr -> exc (list pystr))
    (subprocess_run : list pystr -> pystr -> N -> exc CompletedProcess)
    (command : pystr) :
  let tool := run_shell_tool shlex_split subprocess_run in
  (command_allowed command = false -> tool command = Return policy_rejection)
  /\ (forall e, tool command = Raise e -> is_Exception (exn_cls e) = false)
  /\ (command_allowed command = true ->
      forall e, is_Exception (exn_cls e) = true ->
        (shlex_split command = Raise e
         \/ exists argv, shlex_split command = Return argv
              /\ subprocess_run argv WORK_DIR_str 30 = Raise e) ->
        tool command = Return (run_error e))
  /\ (command_allowed command = true ->
      forall argv res,
        shlex_split command = Return argv ->
        subprocess_run argv WORK_DIR_str 30 = Return res ->
        tool command = Return (run_report res)).
Proof.
  simpl. split; [apply run_shell_tool_rejected |].
  split; [apply run_shell_tool_raise |]. split.
  - intros Ha e He Hfail. rewrite run_shell_tool_allowed by done.
    assert (run_shell_body shlex_split subprocess_run command = Raise e) as ->.
    { destruct Hfail as [H | (argv & H1 & H2)].
      - unfold run_shell_body. by rewrite H.
      - by eapply run_shell_body_spawn_fails. }
    simpl. by rewrite He.
  - intros Ha argv res H1 H2. rewrite run_shell_tool_allowed by done.
    by erewrite run_shell_body_ok.
Qed.

(** C5 at work: [ls] timing out, and [pytest -q] exiting with status 1. *)
Lemma run_shell_tool_contains_failures_witness :
  run_shell_tool (fun _ => Return [lit "ls"])
    (fun _ _ _ => Raise (Exn TimeoutExpired (lit "timed out after 30 seconds")))
    (lit "ls")
  = Return (lit "Error running command: timed out after 30 seconds")
  /\ run_shell_tool (fun _ => Return [lit "pytest"; lit "-q"])
       (fun _ _ _ => Return {| returncode := 1; stdout := lit " 1 failed\n";
                               stderr := [] |})
       (lit "pytest -q")
     = Return (lit "exit=1\nstdout:\n1 failed\n\nstderr:\n").
Proof.
  split.
  - destruct (run_shell_tool_contains_failures
      (fun _ => Return [lit "ls"])
      (fun _ _ _ => Raise (Exn TimeoutExpired (lit "timed out after 30 seconds")))
      (lit "ls")) as (_ & _ & Hfail & _).
    rewrite (Hfail eq_refl (Exn TimeoutExpired (lit "timed out after 30 seconds")) eq_refl).
    + reflexivity.
    + right. exists [lit "ls"]. split; reflexivity.
  - destruct (run_shell_tool_contains_failures
      (fun _ => Return [lit "pytest"; lit "-q"])
      (fun _ _ _ => Return {| returncode := 1; stdout := lit " 1 failed\n";
                              stderr := [] |})
      (lit "pytest -q")) as (_ & _ & _ & Hok).
    rewrite (Hok eq_refl [lit "pytest"; lit "-q"] _ eq_refl eq_refl).
    reflexivity.
Defined.

(** C10: the entries [ls] and [pytest] end in no space, so every command
    that begins with those letters passes the policy test and is executed
    (split, run, its outcome returned), [lsblk /dev] and [pytest-bench x]
    among them; a command passes exactly when one of the listed prefixes is
    a literal prefix of it. *)
Theorem bare_prefixes_accept_longer_names
    (shlex_split : pystr -> exc (list pystr))
    (subprocess_run : list pystr -> pystr -> N -> exc CompletedProcess) :
  let runs := executes shlex_split subprocess_run in
  (forall rest, command_allowed (lit "ls" ++ rest) = true
                /\ runs (lit "ls" ++ rest))
  /\ (forall rest, command_allowed (lit "pytest" ++ rest) = true
                   /\ runs (lit "pytest" ++ rest))
  /\ runs (lit "lsblk /dev")
  /\ runs (lit "pytest-bench x")
  /\ (forall command,
        command_allowed command = true <->
        exists p rest, p ∈ allowed_prefixes /\ command = p ++ rest).
Proof.
  cbv zeta.
  assert (forall rest, command_allowed (lit "ls" ++ rest) = true) as Hls.
  { intros rest. apply command_allowed_spec. exists (lit "ls"), rest.
    split; [| done]. unfold allowed_prefixes. set_solver. }
  assert (forall rest, command_allowed (lit "pytest" ++ rest) = true) as Hpt.
  { intros rest. apply command_allowed_spec. exists (lit "pytest"), rest.
    split; [| done]. unfold allowed_prefixes. set_solver. }
  split; [intros rest; split; [apply Hls | by apply allowed_executes] |].
  split; [intros rest; split; [apply Hpt | by apply allowed_executes] |].
  split; [by apply allowed_executes |].
  split; [by apply allowed_executes |].
  apply command_allowed_spec.
Qed.

(** C10 at work: [lsblk /dev] reaches the process runner, and what the
    process printed comes back. *)
Lemma bare_prefixes_accept_longer_names_witness :
  run_shell_tool
    (fun _ => Return [lit "lsblk"; lit "/dev"])
    (fun _ _ _ => Return {| returncode := 32; stdout := [];
                            stderr := lit "lsblk: /dev: not a block device\n" |})
    (lit "lsblk /dev")
  = Return (lit "exit=32\nstdout:\n\n\nstderr:\nlsblk: /dev: not a block device").
Proof.
  destruct (bare_prefixes_accept_longer_names
    (fun _ => Return [lit "lsblk"; lit "/dev"])
    (fun _ _ _ => Return {| returncode := 32; stdout := [];
                            stderr := lit "lsblk: /dev: not a block device\n" |}))
    as (_ & _ & (Hrun & _) & _).
  rewrite (Hrun _ _ eq_refl eq_refl). reflexivity.
Defined.

(** ** Paths and the sandbox guard *)

(** [q in p.parents]: same anchor, and the components of [q] are a proper
    prefix of those of [p]. *)
Lemma elem_of_parents (q p : PurePath) :
  q ∈ parents p <-> q.1 = p.1 /\ exists k, k <> [] /\ p.2 = q.2 ++ k.
Proof.
  destruct q as [qa qs], p as [pa ps]; simpl. unfold parents; simpl.
  rewrite list_elem_of_In, in_map_iff. split.
  - intros (n & [= <- <-] & Hn). apply in_rev, in_seq in Hn.
    split; [done |]. exists (drop n ps). split.
    + intros Hnil. apply (f_equal length) in Hnil.
      rewrite length_drop in Hnil. simpl in Hnil. lia.
    + by rewrite take_drop.
  - intros (-> & k & Hk & ->). exists (length qs). split.
    + by rewrite take_app_length.
    + apply in_rev. rewrite rev_involutive. apply in_seq.
      rewrite length_app. destruct k; [done | simpl; lia].
Qed.

Lemma elem_of_rev {A} (x : A) (l : list A) : x ∈ rev l <-> x ∈ l.
Proof. rewrite !list_elem_of_In. symmetry. apply in_rev. Qed.

Lemma not_elem_of_parents_self (p : PurePath) : p ∉ parents p.
Proof.
  rewrite elem_of_parents. intros (_ & k & Hk & Heq).
  apply (f_equal length) in Heq. rewrite length_app in Heq.
  destruct k; [done | simpl in Heq; lia].
Qed.

Section GuardFacts.
Variable resolve : PurePath -> exc PurePath.

Lemma safe_path_inside (rel_path : pystr) (p : PurePath) :
  safe_path resolve rel_path = Return p ->
  resolve (joinpath WORK_DIR rel_path) = Return p
  /\ exists root, resolve WORK_DIR = Return root
                  /\ (root ∈ parents p \/ p = root).
Proof.
  unfold safe_path.
  destruct (resolve (joinpath WORK_DIR rel_path)) as [p' |]; [| done].
  destruct (resolve WORK_DIR) as [root |]; [| done]. simpl.
  destruct (bool_decide (root ∈ parents p')) eqn:Hin; simpl.
  - intros [= ->]. apply bool_decide_eq_true in Hin. eauto.
  - destruct (bool_decide (p' = root)) eqn:Heq; simpl; [| done].
    intros [= ->]. apply bool_decide_eq_true in Heq. eauto.
Qed.

Lemma safe_path_outside (rel_path : pystr) (p root : PurePath) :
  resolve (joinpath WORK_DIR rel_path) = Return p ->
  resolve WORK_DIR = Return root ->
  root ∉ parents p -> p <> root ->
  safe_path resolve rel_path = Raise (Exn ValueError (lit "Unsafe path.")).
Proof.
  intros Hp Hroot Hout Hne. unfold safe_path. rewrite Hp, Hroot. simpl.
  by rewrite !bool_decide_eq_false_2.
Qed.
End GuardFacts.

(** Folding [..] away, one component at a time. *)
Lemma step_component_up (acc : list pystr) :
  step_component acc [DOT; DOT] = take (length acc - 1) acc.
Proof. done. Qed.

Lemma step_component_down (acc : list pystr) (x : pystr) :
  x <> [DOT; DOT] -> step_component acc x = acc ++ [x].
Proof. intros H. unfold step_component. by rewrite bool_decide_eq_false_2. Qed.

Lemma take_pred_snoc {A} (l : list A) (x : A) :
  take (length (l ++ [x]) - 1) (l ++ [x]) = l.
Proof.
  rewrite length_app. simpl.
  replace (length l + 1 - 1)%nat with (length l) by lia.
  by rewrite take_app_length.
Qed.

Ltac lit_neq := let H := fresh in intros H; vm_compute in H; discriminate H.

Lemma resolve_in_WORK_DIR (cwd : list pystr) :
  resolve_in cwd WORK_DIR
  = Return (Root, foldl step_component [] cwd ++ [lit "workspace"]).
Proof.
  change WORK_DIR with (Relative, [lit "workspace"]). unfold resolve_in.
  change (has_nul (Relative, [lit "workspace"]).2) with false.
  cbn [fst snd]. rewrite foldl_app. cbn [foldl]. by rewrite step_component_down by lit_neq.
Qed.

Lemma resolve_in_escape (cwd : list pystr) :
  resolve_in cwd (joinpath WORK_DIR (lit "../../etc/passwd"))
  = Return (Root, take (length (foldl step_component [] cwd) - 1)
                    (foldl step_component [] cwd)
                  ++ [lit "etc"; lit "passwd"]).
Proof.
  change (joinpath WORK_DIR (lit "../../etc/passwd"))
    with (Relative, [lit "workspace"; [DOT; DOT]; [DOT; DOT];
                     lit "etc"; lit "passwd"]).
  unfold resolve_in.
  change (has_nul (Relative, [lit "workspace"; [DOT; DOT]; [DOT; DOT];
                              lit "etc"; lit "passwd"]).2) with false.
  cbn [fst snd]. rewrite foldl_app. cbn [foldl].
  rewrite (step_component_down _ (lit "workspace")) by lit_neq.
  rewrite !step_component_up, take_pred_snoc.
  rewrite !step_component_down by lit_neq.
  by rewrite <- app_assoc.
Qed.

Lemma resolve_in_nested (cwd : list pystr) :
  resolve_in cwd (joinpath WORK_DIR (lit "sub/dir/file.txt"))
  = Return (Root, (foldl step_component [] cwd ++ [lit "workspace"])
                  ++ [lit "sub"; lit "dir"; lit "file.txt"]).
Proof.
  change (joinpath WORK_DIR (lit "sub/dir/file.txt"))
    with (Relative, [lit "workspace"; lit "sub"; lit "dir"; lit "file.txt"]).
  unfold resolve_in.
  change (has_nul (Relative, [lit "workspace"; lit "sub"; lit "dir";
                              lit "file.txt"]).2) with false.
  cbn [fst snd]. rewrite foldl_app. cbn [foldl].
  rewrite !step_component_down by lit_neq.
  by rewrite <- !app_assoc.
Qed.

(** C4: under every working directory (on a file system without symbolic
    links, where resolution is [resolve_in]) [safe_path("../../etc/passwd")]
    raises the path-escape error and [safe_path("sub/dir/file.txt")] returns
    an absolute path that has the sandbox root among its parents; and
    whatever the operating system's resolution is, a path [safe_path]
    returns is the resolved root or has it among its parents. *)
Theorem safe_path_confines :
  (forall cwd,
     safe_path (resolve_in cwd) (lit "../../etc/passwd")
     = Raise (Exn ValueError (lit "Unsafe path.")))
  /\ (forall cwd, exists p root,
        safe_path (resolve_in cwd) (lit "sub/dir/file.txt") = Return p
        /\ resolve_in cwd WORK_DIR = Return root
        /\ p.1 = Root /\ root ∈ parents p)
  /\ (forall (resolve : PurePath -> exc PurePath) rel_path p,
        safe_path resolve rel_path = Return p ->
        exists root, resolve WORK_DIR = Return root
                     /\ (root ∈ parents p \/ p = root)).
Proof.
  split; [| split].
  - intros cwd.
    eapply safe_path_outside;
      [apply resolve_in_escape | apply resolve_in_WORK_DIR | |].
    + rewrite elem_of_parents. simpl. intros (_ & k & Hk & Heq).
      destruct (foldl step_component [] cwd) as [|x n] using rev_ind.
      * simpl in Heq. by destruct k.
      * clear IHn. rewrite take_pred_snoc in Heq.
        rewrite <- !app_assoc in Heq. apply app_inv_head in Heq.
        simpl in Heq. by destruct k.
    + destruct (foldl step_component [] cwd) as [|x n] using rev_ind.
      * done.
      * clear IHn. rewrite take_pred_snoc, <- app_assoc.
        intros [= Heq]. by apply app_inv_head in Heq.
  - intros cwd. eexists _, _. split; [| split; [apply resolve_in_WORK_DIR |]].
    + unfold safe_path.
      rewrite resolve_in_nested, resolve_in_WORK_DIR. cbn [mbind exc_bind].
      rewrite bool_decide_eq_true_2; [done |].
      apply elem_of_parents. cbn [fst snd]. split; [done |].
      by exists [lit "sub"; lit "dir"; lit "file.txt"].
    + cbn [fst snd]. split; [done |].
      apply elem_of_parents. cbn [fst snd]. split; [done |].
      by exists [lit "sub"; lit "dir"; lit "file.txt"].
  - intros resolve rel_path p H.
    by destruct (safe_path_inside resolve rel_path p H) as [_ ?].
Qed.

(** C4 at work in [/home/u]: the nested file resolves under
    [/home/u/workspace]. *)
Lemma safe_path_confines_witness :
  exists root,
    resolve_in [lit "home"; lit "u"] WORK_DIR = Return root
    /\ (root ∈ parents (Root, [lit "home"; lit "u"; lit "workspace";
                               lit "sub"; lit "dir"; lit "file.txt"])
        \/ (Root, [lit "home"; lit "u"; lit "workspace";
                   lit "sub"; lit "dir"; lit "file.txt"]) = root).
Proof.
  apply (proj2 (proj2 safe_path_confines)
           (resolve_in [lit "home"; lit "u"]) (lit "sub/dir/file.txt")).
  vm_compute. reflexivity.
Defined.

(** ** The file tool *)

Lemma stat_insert (f : gmap PurePath node) (q q' : PurePath) (n : node) :
  q' <> q -> stat (<[q := n]> f) q' = stat f q'.
Proof. intros Hne. unfold stat. by rewrite lookup_insert_ne. Qed.

Lemma stat_insert_Dir (f : gmap PurePath node) (q : PurePath) :
  stat (<[q := Dir]> f) q = Some Dir.
Proof. unfold stat. rewrite lookup_insert_eq. by destruct (q.2). Qed.

(** Directory creation succeeds unless a regular file is in the way; it
    leaves every link of the chain a directory, keeps the directories there
    were, and touches nothing off the chain. *)
Lemma mkdir_chain_ok (chain : list PurePath) (f : gmap PurePath node) :
  (forall q, q ∈ chain -> forall c, stat f q <> Some (File c)) ->
  exists f', mkdir_chain chain f = Return f'
    /\ (forall q, q ∈ chain -> stat f' q = Some Dir)
    /\ (forall q, q ∉ chain -> f' !! q = f !! q)
    /\ (forall q, stat f q = Some Dir -> stat f' q = Some Dir).
Proof.
  revert f. induction chain as [|q chain IH]; intros f Hfree.
  - exists f. split; [done |]. split; [| done].
    intros q Hq. by apply elem_of_nil in Hq.
  - simpl. destruct (stat f q) as [[|c] |] eqn:Hq.
    + destruct (IH f) as (f' & -> & Hdirs & Hframe & Hkeep).
      { intros q' Hq'. apply Hfree. by right. }
      exists f'. split; [done |]. split; [| split; [| done]].
      * intros q' [-> | Hq']%elem_of_cons; auto.
      * intros q' Hq'. apply Hframe. intros ?. apply Hq'. by right.
    + exfalso. eapply Hfree; [left | done].
    + destruct (IH (<[q := Dir]> f)) as (f' & -> & Hdirs & Hframe & Hkeep).
      { intros q' Hq' c. destruct (decide (q' = q)) as [-> | Hne].
        - by rewrite stat_insert_Dir.
        - rewrite stat_insert by done. apply Hfree. by right. }
      exists f'. split; [done |]. split; [| split].
      * intros q' [-> | Hq']%elem_of_cons; [| auto].
        apply Hkeep, stat_insert_Dir.
      * intros q' Hq'. rewrite Hframe, lookup_insert_ne; [done | |].
        -- intros ->. apply Hq'. by left.
        -- intros ?. apply Hq'. by right.
      * intros q' Hq'. apply Hkeep. destruct (decide (q' = q)) as [-> | Hne].
        -- apply stat_insert_Dir.
        -- by rewrite stat_insert.
Qed.

(** The chain [mkdir] walks for [p.parent] is the set [p.parents]. *)
Lemma elem_of_parent_chain (p q : PurePath) :
  p.2 <> [] ->
  q ∈ rev (parents (parent p)) ++ [parent p] <-> q ∈ parents p.
Proof.
  destruct p as [a ps]. cbn [snd]. intros Hps.
  destruct ps as [|x l _] using rev_ind; [done |].
  unfold parent. cbn [fst snd]. rewrite take_pred_snoc.
  rewrite elem_of_app, list_elem_of_singleton, elem_of_rev, !elem_of_parents.
  cbn [fst snd]. split.
  - intros [(Ha & k & Hk & ->) | ->].
    + split; [done |]. exists (k ++ [x]). split; [by destruct k |].
      by rewrite app_assoc.
    + split; [done |]. by exists [x].
  - intros (Ha & k & Hk & Heq).
    destruct k as [|x' k' _] using rev_ind; [done |].
    rewrite app_assoc in Heq. apply app_inj_tail in Heq as [-> ->].
    destruct k' as [|y k'].
    + right. destruct q; simpl in *. by rewrite app_nil_r, Ha.
    + left. split; [done |]. by exists (y :: k').
Qed.

Section FileToolFacts.
Variable resolve : PurePath -> exc PurePath.

Lemma write_file_tool_missing filename content (w : world) :
  not_arg filename || not_arg content = true ->
  write_file_tool resolve filename content w = (Return missing_argument, w).
Proof. intros H. unfold write_file_tool. by rewrite H. Qed.

Lemma write_file_tool_guarded filename content (w : world) (e : exn) :
  not_arg filename || not_arg content = false ->
  safe_path resolve (default [] filename) = Raise e ->
  write_file_tool resolve filename content w = (Raise e, w).
Proof.
  intros H He. unfold write_file_tool. rewrite H.
  unfold mbind, io_bind, lift. by rewrite He.
Qed.

Lemma write_file_tool_writes (name text : pystr) (w : world) (p : PurePath) :
  name <> [] -> text <> [] ->
  safe_path resolve name = Return p ->
  (forall q, q ∈ parents p -> forall c, stat (files w) q <> Some (File c)) ->
  stat (files w) p <> Some Dir ->
  utf8_encodable text = true ->
  exists w',
    write_file_tool resolve (Some name) (Some text) w
    = (Return (lit "Wrote file: " ++ str_of_path p), w')
    /\ files w' !! p = Some (File text)
    /\ (forall q, q ∈ parents p -> stat (files w') q = Some Dir)
    /\ (forall q, q <> p -> q ∉ parents p -> files w' !! q = files w !! q)
    /\ console w' = console w /\ keyboard w' = keyboard w.
Proof.
  intros Hname Htext Hsafe Hfree Hfile Henc.
  assert (p.2 <> []) as Hps.
  { intros Hnil. apply Hfile. unfold stat. by rewrite Hnil. }
  destruct (mkdir_chain_ok (rev (parents (parent p)) ++ [parent p]) (files w))
    as (f1 & Hmk & Hdirs & Hframe & _).
  { intros q Hq. apply Hfree. by apply elem_of_parent_chain. }
  assert (p ∉ rev (parents (parent p)) ++ [parent p]) as Hself.
  { rewrite elem_of_parent_chain by done. apply not_elem_of_parents_self. }
  assert (stat f1 p = stat (files w) p) as Hp1.
  { unfold stat. by rewrite Hframe. }
  assert (stat f1 (parent p) = Some Dir) as Hpar.
  { apply Hdirs. rewrite elem_of_app, list_elem_of_singleton. by right. }
  exists (set_files (<[p := File text]> f1) w).
  split; [| split; [| split; [| split]]].
  - assert (not_arg (Some name) || not_arg (Some text) = false) as Hargs.
    { by destruct name, text. }
    unfold write_file_tool. rewrite Hargs. cbn [default].
    unfold id, mbind, io_bind, lift. rewrite Hsafe.
    unfold mkdir_parents. rewrite Hmk.
    unfold write_text. cbn [files set_files].
    rewrite Hp1, Hpar, Henc.
    destruct (stat (files w) p) as [[|c] |]; done.
  - cbn [files set_files]. apply lookup_insert_eq.
  - intros q Hq. cbn [files set_files]. rewrite stat_insert.
    + apply Hdirs. by apply elem_of_parent_chain.
    + intros ->. by apply not_elem_of_parents_self in Hq.
  - intros q Hne Hq. cbn [files set_files].
    rewrite lookup_insert_ne by done. apply Hframe.
    by rewrite elem_of_parent_chain.
  - done.
Qed.
End FileToolFacts.

(** C3, as stated, fails: in [/home/u] the name [../x] resolves to
    [/home/u/x], outside the sandbox [/home/u/workspace], and the write
    request does not come back as a result: [write_file_tool] raises. *)
Lemma escaping_write_raises :
  let resolve := resolve_in [lit "home"; lit "u"] in
  let p := (Root, [lit "home"; lit "u"; lit "x"]) in
  let root := (Root, [lit "home"; lit "u"; lit "workspace"]) in
  resolve (joinpath WORK_DIR (lit "../x")) = Return p
  /\ resolve WORK_DIR = Return root
  /\ (root ∉ parents p) /\ p <> root
  /\ ~ exists s w',
         write_file_tool resolve (Some (lit "../x")) (Some (lit "a"))
           (World ∅ [] [] []) = (Return s, w').
Proof.
  cbv zeta. split; [by vm_compute |]. split; [by vm_compute |].
  split; [| split].
  - rewrite elem_of_parents. cbn [fst snd]. intros (_ & k & _ & Heq).
    vm_compute in Heq. discriminate Heq.
  - lit_neq.
  - intros (s & w' & H). vm_compute in H. discriminate H.
Qed.

(** C3, amended: for a filename whose resolved path falls outside the
    sandbox root the write is refused and the world is left as it was: no
    file is created or modified.  The refusal is the missing-argument string
    when the filename or the content is empty or absent, and otherwise the
    [ValueError("Unsafe path.")] of [safe_path], which [write_file_tool]
    lets through to its caller. *)
Theorem outside_write_refused
    (resolve : PurePath -> exc PurePath)
    (filename : pystr) (content : option pystr) (w : world)
    (p root : PurePath) :
  resolve (joinpath WORK_DIR filename) = Return p ->
  resolve WORK_DIR = Return root ->
  root ∉ parents p -> p <> root ->
  exists outcome,
    write_file_tool resolve (Some filename) content w = (outcome, w)
    /\ ((outcome = Return missing_argument
         /\ not_arg (Some filename) || not_arg content = true)
        \/ (outcome = Raise unsafe_path
            /\ not_arg (Some filename) || not_arg content = false)).
Proof.
  intros Hp Hroot Hout Hne.
  destruct (not_arg (Some filename) || not_arg content) eqn:Hargs.
  - exists (Return missing_argument).
    split; [by apply write_file_tool_missing | by left].
  - exists (Raise unsafe_path). split; [| by right].
    apply write_file_tool_guarded; [done |].
    by eapply safe_path_outside.
Qed.

(** C3 at work: in [/home/u], writing [a] to [../x] leaves the empty file
    system empty. *)
Lemma outside_write_refused_witness :
  exists outcome,
    write_file_tool (resolve_in [lit "home"; lit "u"])
      (Some (lit "../x")) (Some (lit "a")) (World ∅ [] [] [])
    = (outcome, World ∅ [] [] [])
    /\ ((outcome = Return missing_argument
         /\ not_arg (Some (lit "../x")) || not_arg (Some (lit "a")) = true)
        \/ (outcome = Raise unsafe_path
            /\ not_arg (Some (lit "../x")) || not_arg (Some (lit "a")) = false)).
Proof.
  apply (outside_write_refused (resolve_in [lit "home"; lit "u"])
           (lit "../x") (Some (lit "a")) (World ∅ [] [] [])
           (Root, [lit "home"; lit "u"; lit "x"])
           (Root, [lit "home"; lit "u"; lit "workspace"])).
  - vm_compute. reflexivity.
  - vm_compute. reflexivity.
  - rewrite elem_of_parents. cbn [fst snd]. intros (_ & k & _ & Heq).
    vm_compute in Heq. discriminate Heq.
  - lit_neq.
Defined.

(** C6: where the claim, like the docstring of [write_file_tool], has the
    call return the resolved absolute path, the code returns a message that
    contains it.  In [/home/u] on an empty file system, writing [x] to
    [a.txt] passes the guard with [/home/u/workspace/a.txt], stores [x]
    there, and returns [Wrote file: /home/u/workspace/a.txt], which is not
    that path. *)
Theorem write_file_tool_returns_a_message :
  let resolve := resolve_in [lit "home"; lit "u"] in
  let p := (Root, [lit "home"; lit "u"; lit "workspace"; lit "a.txt"]) in
  let run := write_file_tool resolve (Some (lit "a.txt")) (Some (lit "x"))
               (World ∅ [] [] []) in
  safe_path resolve (lit "a.txt") = Return p
  /\ str_of_path p = lit "/home/u/workspace/a.txt"
  /\ run.1 = Return (lit "Wrote file: /home/u/workspace/a.txt")
  /\ files run.2 !! p = Some (File (lit "x"))
  /\ run.1 <> Return (str_of_path p).
Proof.
  cbv zeta. split; [vm_compute; reflexivity |].
  split; [vm_compute; reflexivity |].
  split; [vm_compute; reflexivity |].
  split; [vm_compute; reflexivity |].
  intros H. vm_compute in H. discriminate H.
Qed.

(** ** The fenced-block search *)

Lemma occurs_in_trans (a b c : pystr) :
  occurs_in a b -> occurs_in b c -> occurs_in a c.
Proof.
  intros (p1 & q1 & ->) (p2 & q2 & ->).
  exists (p2 ++ p1), (q1 ++ q2). by rewrite <- !app_assoc.
Qed.

Lemma occurs_in_tail (a s : pystr) (c : N) :
  occurs_in a s -> occurs_in a (c :: s).
Proof. intros (pre & post & ->). by exists (c :: pre), post. Qed.

Lemma occursb_spec (a s : pystr) : occurs_in a s <-> occursb a s = true.
Proof.
  split.
  - intros (pre & post & ->). induction pre as [|c pre IH].
    + pose proof (startswith_app a post) as H. cbn [app]. revert H.
      destruct (a ++ post); simpl; by intros ->.
    + simpl. rewrite IH. apply orb_true_r.
  - induction s as [|c s IH]; simpl; rewrite orb_true_iff.
    + intros [H | H]; [| done].
      apply startswith_spec in H as [r ->]. by exists [], r.
    + intros [H | H]; [| by apply occurs_in_tail, IH].
      apply startswith_spec in H as [r ->]. by exists [], r.
Qed.

Lemma no_fence_sub (b s : pystr) : occurs_in b s -> no_fence s -> no_fence b.
Proof. intros Hb Hs Hf. apply Hs. by eapply occurs_in_trans. Qed.

Lemma match_here_fence (s g : pystr) :
  match_here s = Some g -> startswith s fence = true.
Proof. unfold match_here. by destruct (startswith s fence). Qed.

Lemma re_search_None (text : pystr) :
  no_fence text -> re_search text = None.
Proof.
  induction text as [|c text IH]; intros Hno.
  - done.
  - cbn [re_search].
    destruct (match_here (c :: text)) as [g |] eqn:Hm.
    + exfalso. apply Hno. apply match_here_fence in Hm.
      apply startswith_spec in Hm as [r ->]. by exists [], r.
    + apply IH. intros Hocc. apply Hno. by apply occurs_in_tail.
Qed.

(** C7: a text with no triple backtick in it yields, as an ordinary return
    value, the artifact whose body is empty and which has no filename. *)
Theorem no_fence_no_artifact (text : pystr) :
  ~ occurs_in fence text ->
  exists d, extract_code_block text = Return d
            /\ get d "code" = PStr []
            /\ d !! "filename" = None
            /\ get d "filename" = PNone.
Proof.
  intros Hno. exists {[ "code" := PStr [] ]}.
  unfold extract_code_block. by rewrite re_search_None.
Qed.

(** C7 at work on a reply that quotes code inline with single backticks. *)
Lemma no_fence_no_artifact_witness :
  exists d, extract_code_block (lit "use `print(1)` here") = Return d
            /\ get d "code" = PStr []
            /\ d !! "filename" = None
            /\ get d "filename" = PNone.
Proof.
  apply (no_fence_no_artifact (lit "use `print(1)` here")).
  intros H. apply occursb_spec in H. vm_compute in H. discriminate H.
Defined.

(** C2, as stated, fails: the body extracted from the example is not
    [print(1)] followed by a line feed. *)
Lemma example_body_keeps_no_newline :
  ~ exists d,
      extract_code_block (lit "```\n# file: app.py\nprint(1)\n```") = Return d
      /\ get d "filename" = PStr (lit "app.py")
      /\ get d "code" = PStr (lit "print(1)\n").
Proof.
  intros (d & Hd & _ & Hcode).
  vm_compute in Hd. injection Hd as <-.
  vm_compute in Hcode. discriminate Hcode.
Qed.

(** C2, amended: on the example the filename is [app.py] and the body is
    [print(1)]: the filename line is stripped and the remaining lines are
    joined again, which leaves no line feed after the last one. *)
Theorem example_extraction :
  extract_code_block (lit "```\n# file: app.py\nprint(1)\n```")
  = Return (<[ "filename" := PStr (lit "app.py") ]>
            {[ "code" := PStr (lit "print(1)") ]}).
Proof. vm_compute. reflexivity. Qed.

(** ** The steps after the chat *)

Lemma no_developer_messages (messages : list (gmap string pyval)) :
  Forall (fun m => is_developer m = false) messages ->
  filter (fun m => is_developer m = true) messages = [].
Proof.
  induction 1 as [|m messages Hm _ IH]; [done |].
  rewrite filter_cons_False; [done | by rewrite Hm].
Qed.

Lemma save_generated_code_empty (parsed : gmap string pyval) (w : world) :
  val_truthy (get parsed "code") = false ->
  save_generated_code parsed w = (Return (lit "No code found to save."), w).
Proof. intros H. unfold save_generated_code. by rewrite H. Qed.

(** C9: when no message of the transcript is the Developer's, the artifact
    extracted is the empty one, saving it reports [No code found to save.]
    and leaves the world as it was, and the steps after the chat only print
    that report: no file is written, the preview and the approval prompt do
    not happen, no line is read from the operator, nothing is raised. *)
Theorem no_developer_message_no_write
    (resolve : PurePath -> exc PurePath)
    (messages : list (gmap string pyval)) (w : world) :
  Forall (fun m => is_developer m = false) messages ->
  exists parsed,
    extract_code_block [] = Return parsed
    /\ get parsed "code" = PStr [] /\ get parsed "filename" = PNone
    /\ save_generated_code parsed w = (Return (lit "No code found to save."), w)
    /\ main_after_chat resolve messages w
       = (Return tt,
          World (files w)
            (console w ++ [Printed (lit "No code found to save.")])
            (keyboard w) (now w)).
Proof.
  intros Hnone. exists {[ "code" := PStr [] ]}.
  split; [done |]. split; [done |]. split; [done |].
  split; [by apply save_generated_code_empty |].
  unfold main_after_chat. by rewrite no_developer_messages.
Qed.

(** C9 at work on a transcript of the operator and the product manager. *)
Lemma no_developer_message_no_write_witness :
  main_after_chat (resolve_in [lit "home"; lit "u"])
    [ {[ "name" := PStr (lit "Human"); "content" := PStr (lit "hi") ]};
      {[ "name" := PStr (lit "ProductManager");
         "content" := PStr (lit "```\nspec\n```") ]} ]
    (World ∅ [] [lit "y"] (lit "20250830-083606"))
  = (Return tt,
     World ∅ [Printed (lit "No code found to save.")] [lit "y"]
       (lit "20250830-083606")).
Proof.
  destruct (no_developer_message_no_write (resolve_in [lit "home"; lit "u"])
    [ {[ "name" := PStr (lit "Human"); "content" := PStr (lit "hi") ]};
      {[ "name" := PStr (lit "ProductManager");
         "content" := PStr (lit "```\nspec\n```") ]} ]
    (World ∅ [] [lit "y"] (lit "20250830-083606")))
    as (parsed & _ & _ & _ & _ & Hmain).
  - repeat constructor.
  - exact Hmain.
Defined.

(** ** Re-extraction *)

Lemma until_fence_Some (body g : pystr) :
  until_fence body = Some g -> exists post, body = g ++ fence ++ post.
Proof.
  revert g. induction body as [|c body IH]; intros g.
  - simpl. discriminate.
  - cbn [until_fence].
    destruct (startswith (c :: body) fence) eqn:Hs.
    + intros [= <-]. apply startswith_spec in Hs as [r Hr]. by exists r.
    + destruct (until_fence body) as [g' |]; [| discriminate].
      intros [= <-]. destruct (IH g' eq_refl) as [post ->]. by exists post.
Qed.

Lemma until_fence_no_fence (body g : pystr) :
  until_fence body = Some g -> no_fence g.
Proof.
  revert g. induction body as [|c body IH]; intros g.
  - simpl. discriminate.
  - cbn [until_fence].
    destruct (startswith (c :: body) fence) eqn:Hs.
    + intros [= <-] (pre & post & H). by destruct pre.
    + destruct (until_fence body) as [g' |] eqn:Hg; [| discriminate].
      intros [= <-] (pre & post & H).
      destruct (until_fence_Some _ _ Hg) as [rest ->].
      destruct pre as [|x pre].
      * injection H as -> ->. vm_compute in Hs. discriminate Hs.
      * injection H as -> ->. apply (IH _ eq_refl). by exists pre, post.
Qed.

Lemma until_fence_last (body g : pystr) :
  until_fence body = Some g -> last g <> Some BACKTICK.
Proof.
  revert g. induction body as [|c body IH]; intros g.
  - simpl. discriminate.
  - cbn [until_fence].
    destruct (startswith (c :: body) fence) eqn:Hs.
    + by intros [= <-].
    + destruct (until_fence body) as [g' |] eqn:Hg; [| discriminate].
      intros [= <-]. destruct g' as [|y g'].
      * destruct (until_fence_Some _ _ Hg) as [rest ->].
        simpl. intros [= ->]. discriminate Hs.
      * rewrite last_cons_cons. by apply IH.
Qed.

(** A body without a fence inside that ends in no backtick is read back up
    to the closing fence. *)
Lemma until_fence_intro (g : pystr) :
  no_fence g -> last g <> Some BACKTICK -> until_fence (g ++ fence) = Some g.
Proof.
  induction g as [|c g IH]; intros Hno Hlast; [done |].
  cbn [app until_fence].
  destruct (startswith (c :: g ++ fence) fence) eqn:Hs.
  - exfalso. apply startswith_spec in Hs as [r Hr].
    destruct g as [|x [|y g]].
    + injection Hr as -> _. by apply Hlast.
    + injection Hr as -> -> _. by apply Hlast.
    + injection Hr as -> -> -> _. apply Hno. by exists [], g.
  - rewrite IH; [done | |].
    + eapply no_fence_sub; [| done].
      exists [c], []. by rewrite app_nil_r.
    + destruct g; [done |]. by rewrite last_cons_cons in Hlast.
Qed.

Lemma re_search_Some (text g : pystr) :
  re_search text = Some g -> exists body, until_fence body = Some g.
Proof.
  induction text as [|c text IH]; cbn [re_search].
  - destruct (match_here []) eqn:Hm; [| done]. discriminate Hm.
  - destruct (match_here (c :: text)) as [g' |] eqn:Hm; [| done].
    intros [= <-]. unfold match_here in Hm.
    destruct (startswith (c :: text) fence); [| done].
    destruct (drop_while is_tag_char (drop 3 (c :: text))) as [|x body];
      [done |].
    destruct (x =? LF); [| done]. by exists body.
Qed.

Lemma re_search_rebuilt (g : pystr) :
  until_fence (g ++ fence) = Some g ->
  re_search (fence ++ [LF] ++ g ++ fence) = Some g.
Proof.
  intros H.
  transitivity (match until_fence (g ++ fence) with
                | Some g' => Some g'
                | None => re_search (BACKTICK :: BACKTICK :: LF :: g ++ fence)
                end); [reflexivity | by rewrite H].
Qed.

(** Induction two elements at a time, as [splitlines] recurses past a
    [\r\n] pair. *)
Lemma list_pair_ind {A} (P : list A -> Prop) :
  P [] -> (forall x l, P l -> (forall y l', l = y :: l' -> P l') -> P (x :: l)) ->
  forall l, P l.
Proof.
  intros Hnil Hstep l.
  assert (P l /\ forall y l', l = y :: l' -> P l') as [H _]; [| done].
  induction l as [|x l [IH1 IH2]].
  - split; [done | discriminate].
  - split; [by apply Hstep |]. by intros y l' [= _ <-].
Qed.

Lemma splitlines_one_line (s : pystr) : Forall one_line (splitlines s).
Proof.
  induction s as [|c s IH1 IH2] using list_pair_ind; [constructor |].
  cbn [splitlines]. destruct (is_linebreak c) eqn:Hc.
  - constructor; [constructor |].
    destruct (c =? CR); [| done].
    destruct s as [|c' s']; [constructor |].
    destruct (c' =? LF); [by eapply IH2 | done].
  - destruct (splitlines s) as [|l ls]; [by repeat constructor |].
    inversion IH1; subst. constructor; [by constructor | done].
Qed.

(** Every line is cut out of the text, the first one at its head. *)
Lemma splitlines_cut (s : pystr) :
  Forall (fun l => occurs_in l s) (splitlines s)
  /\ match splitlines s with
     | l :: _ => exists rest, s = l ++ rest
     | [] => True
     end.
Proof.
  induction s as [|c s [IH1 IH1'] IH2] using list_pair_ind; [by split |].
  cbn [splitlines]. destruct (is_linebreak c) eqn:Hc.
  - split; [| by exists (c :: s)].
    constructor; [by exists [], (c :: s) |].
    eapply Forall_impl; [| intros l Hl; apply occurs_in_tail, Hl].
    destruct (c =? CR); [| done].
    destruct s as [|c' s']; [constructor |].
    destruct (c' =? LF); [| done].
    destruct (IH2 c' s' eq_refl) as [IH _].
    eapply Forall_impl; [exact IH |]. intros l Hl. by apply occurs_in_tail.
  - destruct (splitlines s) as [|l0 ls].
    + split; [| by exists s]. constructor; [| constructor]. by exists [], s.
    + destruct IH1' as [rest Hrest]. inversion IH1; subst.
      split; [| by exists rest]. constructor.
      * exists [], rest. done.
      * eapply Forall_impl; [eassumption |].
        intros l Hl. by apply occurs_in_tail.
Qed.

Lemma splitlines_line_LF (l r : pystr) :
  one_line l -> splitlines (l ++ LF :: r) = l :: splitlines r.
Proof.
  induction 1 as [|c l Hc _ IH]; [done |].
  cbn [app splitlines]. by rewrite Hc, IH.
Qed.

Lemma splitlines_single (l : pystr) :
  one_line l -> l <> [] -> splitlines l = [l].
Proof.
  induction 1 as [|c l Hc Hl IH]; [done |]. intros _.
  cbn [splitlines]. rewrite Hc. destruct l as [|c' l]; [done |].
  by rewrite IH.
Qed.

(** Lines that are joined with line feeds split again into the same lines,
    unless the text is empty or a line feed ends it. *)
Lemma splitlines_join (ls : list pystr) :
  Forall one_line ls ->
  join [LF] ls <> [] -> last (join [LF] ls) <> Some LF ->
  splitlines (join [LF] ls) = ls.
Proof.
  induction 1 as [|l ls Hl Hls IH]; [done |].
  destruct ls as [|l' ls].
  - cbn [join]. intros Hne _. by apply splitlines_single.
  - cbn [join]. cbn [join] in IH. intros _ Hlast.
    change (l ++ [LF] ++ ?r) with (l ++ LF :: r) in *.
    rewrite splitlines_line_LF by done.
    rewrite last_app_cons in Hlast.
    destruct (match ls with [] => l' | _ :: _ => l' ++ [LF] ++ join [LF] ls end)
      as [|x r] eqn:Hr.
    + done.
    + rewrite IH; [done | done |].
      by rewrite last_cons_cons in Hlast.
Qed.

(** ** Stripping *)

Lemma drop_while_suffix {A} (f : A -> bool) (l : list A) :
  exists k, l = k ++ drop_while f l.
Proof.
  induction l as [|x l [k IH]]; [by exists [] |].
  simpl. destruct (f x); [| by exists []].
  exists (x :: k). by rewrite IH at 1.
Qed.

Lemma drop_while_head {A} (f : A -> bool) (l : list A) (x : A) :
  head (drop_while f l) = Some x -> f x = false.
Proof.
  induction l as [|y l IH]; [done |].
  simpl. destruct (f y) eqn:Hy; [done |]. by intros [= <-].
Qed.

Lemma drop_while_id {A} (f : A -> bool) (l : list A) :
  (forall x, head l = Some x -> f x = false) -> drop_while f l = l.
Proof. destruct l as [|y l]; [done |]. intros H. simpl. by rewrite H. Qed.

Lemma head_rev {A} (l : list A) : head (rev l) = last l.
Proof.
  induction l as [|x l IH] using rev_ind; [done |].
  by rewrite rev_unit, last_snoc.
Qed.

Lemma last_rev {A} (l : list A) : last (rev l) = head l.
Proof. by rewrite <- head_rev, rev_involutive. Qed.

Lemma rstrip_prefix (s : pystr) : exists k, s = rstrip s ++ k.
Proof.
  unfold rstrip. destruct (drop_while_suffix is_space (rev s)) as [k Hk].
  exists (rev k). rewrite <- rev_app_distr, <- Hk. by rewrite rev_involutive.
Qed.

Lemma strip_occurs (s : pystr) : occurs_in (strip s) s.
Proof.
  unfold strip, lstrip.
  destruct (drop_while_suffix is_space s) as [k1 Hk1].
  destruct (rstrip_prefix (drop_while is_space s)) as [k2 Hk2].
  exists k1, k2. by rewrite <- Hk2.
Qed.

Lemma stripped_strip (s : pystr) : stripped (strip s).
Proof.
  unfold strip. split.
  - intros c Hc.
    destruct (rstrip_prefix (lstrip s)) as [k Hk].
    apply (drop_while_head is_space s). fold (lstrip s). rewrite Hk.
    by destruct (rstrip (lstrip s)).
  - intros c. unfold rstrip. rewrite last_rev. apply drop_while_head.
Qed.

Lemma strip_stripped (s : pystr) : stripped s -> strip s = s.
Proof.
  intros [Hhead Hlast]. unfold strip, lstrip, rstrip.
  rewrite (drop_while_id _ s) by done.
  rewrite drop_while_id; [apply rev_involutive |].
  intros c. rewrite head_rev. apply Hlast.
Qed.

Lemma strip_leading_space (s : pystr) : strip (32 :: s) = strip s.
Proof. done. Qed.

Lemma one_line_sub (l s : pystr) : occurs_in l s -> one_line s -> one_line l.
Proof.
  intros (pre & post & ->) H. unfold one_line in *.
  by apply Forall_app in H as [_ [H _]%Forall_app].
Qed.

Lemma split_once_second (sep : N) (s b : pystr) :
  split_once sep s !! 1%nat = Some b -> exists a, s = a ++ sep :: b.
Proof.
  induction s as [|c s IH]; [done |].
  cbn [split_once]. destruct (c =? sep) eqn:Hc.
  - apply N.eqb_eq in Hc as ->. intros [= <-]. by exists [].
  - destruct (split_once sep s) as [|l ls]; [done |].
    intros H. destruct (IH H) as [a ->]. by exists (c :: a).
Qed.

(** ** Fence-free texts *)

(** A character that is no backtick keeps a fence from straddling it. *)
Lemma no_fence_sep (a b : pystr) (x : N) :
  no_fence a -> no_fence b -> x <> BACKTICK -> no_fence (a ++ x :: b).
Proof.
  intros Ha Hb Hx (pre & post & Heq).
  apply app_eq_app in Heq as [l [[-> Heq] | [-> Heq]]].
  - unfold fence in Heq.
    destruct l as [|l1 [|l2 [|l3 l]]]; simpl in Heq.
    + injection Heq as H1 _. by apply Hx.
    + injection Heq as _ H2 _. by apply Hx.
    + injection Heq as _ _ H3 _. by apply Hx.
    + injection Heq as <- <- <- _. apply Ha. by exists pre, l.
  - unfold fence in Heq. destruct l as [|x' l]; simpl in Heq.
    + injection Heq as H1 _. by apply Hx.
    + injection Heq as _ ->. apply Hb. by exists l, post.
Qed.

Lemma no_fence_nil : no_fence [].
Proof. by intros ([|??] & ? & ?). Qed.

Lemma no_fence_join (ls : list pystr) :
  Forall no_fence ls -> no_fence (join [LF] ls).
Proof.
  induction 1 as [|l ls Hl Hls IH]; [apply no_fence_nil |].
  destruct ls as [|l' ls]; [done |].
  cbn [join]. cbn [join] in IH. by apply no_fence_sep.
Qed.

Lemma no_fence_file_line (name : pystr) :
  no_fence name -> no_fence (lit "# file: " ++ name).
Proof.
  intros H. change (lit "# file: " ++ name) with (lit "# file:" ++ 32 :: name).
  apply no_fence_sep; [| done | done].
  intros Hocc. apply occursb_spec in Hocc. vm_compute in Hocc. discriminate.
Qed.

Lemma one_line_file_line (name : pystr) :
  one_line name -> one_line (lit "# file: " ++ name).
Proof.
  intros H. apply Forall_app. split; [| done].
  repeat constructor.
Qed.

(** ** Extraction, read back *)

(** The re-inserted filename line is recognised and gives the name back. *)
Lemma file_line_parse (name : pystr) :
  stripped name ->
  startswith (lower (strip (lit "# file: " ++ name))) (lit "# file:") = true
  /\ exists after,
       index (split_once COLON (strip (lit "# file: " ++ name))) 1 = Return after
       /\ strip after = name.
Proof.
  intros Hname. destruct name as [|c name] using rev_ind.
  - split; [done |]. by exists [].
  - clear IHname.
    assert (strip (lit "# file: " ++ name ++ [c]) = lit "# file: " ++ name ++ [c])
      as ->.
    { apply strip_stripped. split.
      - by intros ? [= <-].
      - intros c'. rewrite app_assoc, last_snoc. intros [= <-].
        apply Hname. by rewrite last_snoc. }
    split.
    + unfold lower. rewrite flat_map_app.
      change (flat_map lower_char (lit "# file: "))
        with (lit "# file:" ++ [32]).
      rewrite <- app_assoc. apply startswith_app.
    + exists (32 :: name ++ [c]). split; [done |].
      rewrite strip_leading_space. by apply strip_stripped.
Qed.

Lemma index_nil {A} (i : nat) : index (@nil A) i = Raise index_error.
Proof. done. Qed.

Lemma index_cons_0 {A} (x : A) (l : list A) : index (x :: l) 0 = Return x.
Proof. done. Qed.

Lemma index_single_1 {A} (x : A) : index [x] 1 = Raise index_error.
Proof. done. Qed.

Lemma index_cons_1 {A} (x y : A) (l : list A) :
  index (x :: y :: l) 1 = Return y.
Proof. done. Qed.

(** What [extract_code_block] returned, read off the search result. *)
Lemma extract_code_block_inv (text : pystr) (d : gmap string pyval) :
  extract_code_block text = Return d ->
  (re_search text = None /\ d = {[ "code" := PStr [] ]})
  \/ (exists g, re_search text = Some g
        /\ d = <[ "filename" := PNone ]> {[ "code" := PStr g ]})
  \/ (exists g line0 rest after,
        re_search text = Some g
        /\ splitlines g = line0 :: rest
        /\ split_once COLON (strip line0) !! 1%nat = Some after
        /\ d = <[ "filename" := PStr (strip after) ]>
               {[ "code" := PStr (join [LF] rest) ]}).
Proof.
  unfold extract_code_block. intros H.
  destruct (re_search text) as [g |]; [| injection H as <-; by left].
  right. destruct g as [|c g].
  - injection H as <-. left. by exists [].
  - cbn [truthy] in H.
    destruct (splitlines (c :: g)) as [|line0 rest] eqn:Hlines.
    { rewrite index_nil in H. discriminate H. }
    rewrite index_cons_0 in H. cbn [mbind exc_bind] in H.
    destruct (startswith (lower (strip line0)) (lit "# file:")).
    + destruct (split_once COLON (strip line0)) as [|s0 [|after l]] eqn:Ha.
      * rewrite index_nil in H. discriminate H.
      * rewrite index_single_1 in H. discriminate H.
      * rewrite index_cons_1 in H. cbn [mbind exc_bind drop] in H.
        injection H as <-. right.
        exists (c :: g), line0, rest, after. by rewrite Ha.
    + injection H as <-. left. by exists (c :: g).
Qed.

Lemma extract_code_block_search (t1 t2 : pystr) :
  re_search t1 = re_search t2 ->
  extract_code_block t1 = extract_code_block t2.
Proof. intros H. unfold extract_code_block. by rewrite H. Qed.

Lemma get_filename_insert (v : pyval) (m : gmap string pyval) :
  get (<[ "filename" := v ]> m) "filename" = v.
Proof. unfold get. by rewrite lookup_insert_eq. Qed.

Lemma get_code_insert (v c : pyval) :
  get (<[ "filename" := v ]> {[ "code" := c ]}) "code" = c.
Proof.
  unfold get. rewrite lookup_insert_ne by done. by rewrite lookup_singleton_eq.
Qed.

(** C8, as stated, fails: a block whose last line is blank yields the
    filename [a] and the body [x] with a line feed; the text rebuilt from
    that artifact yields the body [x] without it. *)
Lemma blank_last_line_is_lost :
  exists d d',
    extract_code_block (lit "```\n# file: a\nx\n\n```") = Return d
    /\ nonempty_artifact d
    /\ extract_code_block (reconstruct d) = Return d'
    /\ get d' "code" <> get d "code".
Proof.
  exists (<[ "filename" := PStr (lit "a") ]> {[ "code" := PStr (lit "x\n") ]}),
         (<[ "filename" := PStr (lit "a") ]> {[ "code" := PStr (lit "x") ]}).
  split; [vm_compute; reflexivity |].
  split; [vm_compute; reflexivity |].
  split; [vm_compute; reflexivity |].
  intros H. vm_compute in H. discriminate H.
Qed.

(** C8, amended: from a text that yields a non-empty artifact, re-extracting
    the rebuilt fenced text yields the same filename and the same body
    whenever no filename was extracted, or the body ends in neither a line
    feed nor a backtick. *)
Theorem re_extraction (text : pystr) (d : gmap string pyval) :
  extract_code_block text = Return d ->
  nonempty_artifact d ->
  get d "filename" = PNone
  \/ (last (format_val (get d "code")) <> Some LF
      /\ last (format_val (get d "code")) <> Some BACKTICK) ->
  extract_code_block (reconstruct d) = Return d.
Proof.
  intros Hext Hne Hcond.
  destruct (extract_code_block_inv _ _ Hext)
    as [[_ ->] | [(g & Hs & ->)
                 | (g & line0 & rest & after & Hs & Hlines & Hafter & ->)]].
  - discriminate Hne.
  - rewrite <- Hext. apply extract_code_block_search. rewrite Hs.
    destruct (re_search_Some _ _ Hs) as [body Hbody].
    unfold reconstruct. rewrite get_filename_insert, get_code_insert.
    cbn [format_val app].
    apply re_search_rebuilt, until_fence_intro.
    + by eapply until_fence_no_fence.
    + by eapply until_fence_last.
  - remember (strip after) as name eqn:Hname.
    unfold nonempty_artifact in Hne.
    rewrite get_filename_insert, get_code_insert in Hcond.
    rewrite get_code_insert in Hne.
    cbn [format_val val_truthy] in Hcond, Hne.
    destruct Hcond as [Hnone | [Hlf Hbt]]; [discriminate Hnone |].
    destruct (re_search_Some _ _ Hs) as [body Hbody].
    pose proof (until_fence_no_fence _ _ Hbody) as Hg.
    destruct (splitlines_cut g) as [Hcut _]. rewrite Hlines in Hcut.
    apply Forall_cons in Hcut as [Hline0 Hrest].
    pose proof (splitlines_one_line g) as Hol. rewrite Hlines in Hol.
    apply Forall_cons in Hol as [Hol0 Holrest].
    assert (occurs_in name line0) as Hocc.
    { destruct (split_once_second _ _ _ Hafter) as [a Ha]. subst name.
      eapply occurs_in_trans; [apply strip_occurs |].
      eapply occurs_in_trans; [| apply strip_occurs].
      rewrite Ha. exists (a ++ [COLON]), [].
      by rewrite app_nil_r, <- app_assoc. }
    assert (no_fence name) as Hnf.
    { eapply no_fence_sub; [| exact Hg]. by eapply occurs_in_trans. }
    assert (one_line name) as Hol1 by (by eapply one_line_sub).
    assert (stripped name) as Hst by (subst name; apply stripped_strip).
    assert (no_fence (join [LF] rest)) as Hnfc.
    { apply no_fence_join. eapply Forall_impl; [exact Hrest |].
      intros l Hl. exact (no_fence_sub l g Hl Hg). }
    assert (join [LF] rest <> []) as Hcode.
    { intros Hnil. by rewrite Hnil in Hne. }
    unfold reconstruct. rewrite get_filename_insert, get_code_insert.
    cbn [format_val].
    set (G := (lit "# file: " ++ name) ++ LF :: join [LF] rest).
    assert (fence ++ [LF] ++ (lit "# file: " ++ name ++ [LF])
              ++ join [LF] rest ++ fence
            = fence ++ [LF] ++ G ++ fence) as ->.
    { unfold G. by rewrite <- !app_assoc. }
    assert (until_fence (G ++ fence) = Some G) as HG.
    { apply until_fence_intro; unfold G.
      - apply no_fence_sep; [by apply no_fence_file_line | done | done].
      - rewrite last_app_cons.
        destruct (join [LF] rest) as [|x r]; [done |].
        by rewrite last_cons_cons. }
    assert (splitlines G = (lit "# file: " ++ name) :: rest) as Hsl.
    { unfold G. rewrite splitlines_line_LF by (by apply one_line_file_line).
      by rewrite splitlines_join. }
    unfold extract_code_block. rewrite (re_search_rebuilt G HG).
    assert (truthy G = true) as -> by reflexivity.
    rewrite Hsl.
    change (index ((lit "# file: " ++ name) :: rest) 0)
      with (Return (lit "# file: " ++ name) : exc pystr).
    cbn [mbind exc_bind].
    destruct (file_line_parse name Hst) as (Hsw & after' & Hidx & Hstrip).
    rewrite Hsw, Hidx. cbn [mbind exc_bind]. by rewrite Hstrip.
Qed.

(** C8 at work on the usual reply: a tagged fence, the filename line, one
    line of code. *)
Lemma re_extraction_witness :
  extract_code_block
    (reconstruct (<[ "filename" := PStr (lit "app.py") ]>
                  {[ "code" := PStr (lit "print(1)") ]}))
  = Return (<[ "filename" := PStr (lit "app.py") ]>
            {[ "code" := PStr (lit "print(1)") ]}).
Proof.
  apply (re_extraction (lit "```python\n# file: app.py\nprint(1)\n```")).
  - vm_compute. reflexivity.
  - vm_compute. reflexivity.
  - right. split; intros H; vm_compute in H; discriminate H.
Defined.


(** * Further properties of the code *)

(** ** Extraction never fails *)

Lemma splitlines_nonempty (s : pystr) : s <> [] -> splitlines s <> [].
Proof.
  destruct s as [|c s]; [done |]. intros _. cbn [splitlines].
  destruct (is_linebreak c); [done |]. by destruct (splitlines s).
Qed.

Lemma lower_char_colon (c : N) : COLON ∈ lower_char c -> c = COLON.
Proof.
  unfold lower_char, COLON.
  destruct ((65 <=? c) && (c <=? 90)) eqn:Hup.
  - apply andb_true_iff in Hup as [H1%N.leb_le _].
    intros H%list_elem_of_singleton. lia.
  - destruct (c =? 8490); [by intros ?%list_elem_of_singleton |].
    destruct (c =? 304).
    + intros [? | ?%list_elem_of_singleton]%elem_of_cons; done.
    + by intros H%list_elem_of_singleton.
Qed.

Lemma file_prefix_has_colon (l : pystr) :
  startswith (lower l) (lit "# file:") = true -> COLON ∈ l.
Proof.
  intros [r Hr]%startswith_spec.
  assert (COLON ∈ lower l) as Hin.
  { rewrite Hr. apply elem_of_app. left. vm_compute. repeat constructor. }
  apply list_elem_of_In, in_flat_map in Hin as (c & Hc & Hcolon).
  apply list_elem_of_In in Hc, Hcolon.
  by apply lower_char_colon in Hcolon as ->.
Qed.

Lemma split_once_found (sep : N) (s : pystr) :
  sep ∈ s -> exists a b, split_once sep s = [a; b].
Proof.
  induction s as [|c s IH]; [by intros ?%elem_of_nil |].
  cbn [split_once]. destruct (c =? sep) eqn:Hc; [by eexists _, _ |].
  intros [-> | Hin]%elem_of_cons; [by rewrite N.eqb_refl in Hc |].
  destruct (IH Hin) as (a & b & ->). by eexists _, _.
Qed.

(** X1: [extract_code_block] returns a dictionary on every text: its two
    list subscripts are always in range. *)
Theorem extract_code_block_returns (text : pystr) :
  exists d, extract_code_block text = Return d.
Proof.
  unfold extract_code_block.
  destruct (re_search text) as [[|c g] |]; [by eexists | | by eexists].
  cbn [truthy].
  destruct (splitlines (c :: g)) as [|line0 rest] eqn:Hlines.
  { by apply splitlines_nonempty in Hlines. }
  rewrite index_cons_0. cbn [mbind exc_bind].
  destruct (startswith (lower (strip line0)) (lit "# file:")) eqn:Hfile;
    [| by eexists].
  apply file_prefix_has_colon, (split_once_found COLON) in Hfile
    as (a & b & ->).
  rewrite index_cons_1. by eexists.
Qed.

(** ** Only the first block counts *)

Lemma fence_not_at_head (s rest : pystr) :
  no_fence s -> last s <> Some BACKTICK -> s <> [] ->
  startswith (s ++ fence ++ rest) fence = false.
Proof.
  intros Hno Hlast Hne.
  destruct (startswith (s ++ fence ++ rest) fence) eqn:Hs; [| done].
  exfalso. apply startswith_spec in Hs as [r Hr].
  destruct s as [|x [|y [|z s]]]; [done | | |].
  - injection Hr as -> _. by apply Hlast.
  - injection Hr as -> -> _. by apply Hlast.
  - injection Hr as -> -> -> _. apply Hno. by exists [], s.
Qed.

Lemma no_fence_tail (c : N) (s : pystr) : no_fence (c :: s) -> no_fence s.
Proof.
  apply no_fence_sub. exists [c], []. by rewrite app_nil_r.
Qed.

Lemma until_fence_intro_app (g rest : pystr) :
  no_fence g -> last g <> Some BACKTICK ->
  until_fence (g ++ fence ++ rest) = Some g.
Proof.
  induction g as [|c g IH]; intros Hno Hlast; [done |].
  pose proof (fence_not_at_head (c :: g) rest Hno Hlast) as Hs.
  cbn [app until_fence] in *. rewrite Hs by done.
  rewrite IH; [done | by eapply no_fence_tail |].
  destruct g; [done |]. by rewrite last_cons_cons in Hlast.
Qed.

Lemma drop_while_tag (tag rest : pystr) :
  Forall (fun c => is_tag_char c = true) tag ->
  drop_while is_tag_char (tag ++ LF :: rest) = LF :: rest.
Proof. induction 1 as [|c tag Hc _ IH]; [done |]. simpl. by rewrite Hc. Qed.

Lemma match_here_block (tag rest : pystr) :
  Forall (fun c => is_tag_char c = true) tag ->
  match_here (fence ++ tag ++ LF :: rest) = until_fence rest.
Proof.
  intros Htag. unfold match_here. rewrite startswith_app.
  change (drop 3 (fence ++ tag ++ LF :: rest)) with (tag ++ LF :: rest).
  by rewrite drop_while_tag.
Qed.

Lemma re_search_skip (pre rest g : pystr) :
  no_fence pre -> last pre <> Some BACKTICK ->
  match_here (fence ++ rest) = Some g ->
  re_search (pre ++ fence ++ rest) = Some g.
Proof.
  intros Hno Hlast Hm. induction pre as [|c pre IH].
  - change ([] ++ fence ++ rest) with (BACKTICK :: BACKTICK :: BACKTICK :: rest).
    cbn [re_search].
    change (BACKTICK :: BACKTICK :: BACKTICK :: rest) with (fence ++ rest).
    by rewrite Hm.
  - pose proof (fence_not_at_head (c :: pre) rest Hno Hlast) as Hs.
    cbn [app re_search] in *. unfold match_here at 1. rewrite Hs by done.
    apply IH; [by eapply no_fence_tail |].
    destruct pre; [done |]. by rewrite last_cons_cons in Hlast.
Qed.

(** X2: only the first fenced block counts.  When the text before the
    opening fence has no fence in it and ends in no backtick, the language
    tag consists of tag characters, and the block body has no fence in it
    and ends in no backtick, the artifact is the one of that block alone:
    the text before it, the tag and everything after its closing fence,
    further blocks included, are ignored. *)
Theorem first_block_only (pre tag body rest : pystr) :
  no_fence pre -> last pre <> Some BACKTICK ->
  Forall (fun c => is_tag_char c = true) tag ->
  no_fence body -> last body <> Some BACKTICK ->
  extract_code_block (pre ++ fence ++ tag ++ LF :: body ++ fence ++ rest)
  = extract_code_block (fence ++ [LF] ++ body ++ fence).
Proof.
  intros Hpre Hlast Htag Hbody Hblast.
  apply extract_code_block_search.
  rewrite (re_search_skip pre _ body Hpre Hlast).
  - symmetry. by apply re_search_rebuilt, until_fence_intro.
  - rewrite match_here_block by done. by apply until_fence_intro_app.
Qed.

(** X2 at work: a reply with prose, a [python] block and a second block. *)
Lemma first_block_only_witness :
  extract_code_block
    (lit "Here it is:\n```python\nprint(1)\n```\nand tests:\n```\nassert 1\n```")
  = extract_code_block (lit "```\nprint(1)\n```").
Proof.
  apply (first_block_only (lit "Here it is:\n") (lit "python")
           (lit "print(1)\n") (lit "\nand tests:\n```\nassert 1\n```")).
  - intros H. apply occursb_spec in H. vm_compute in H. discriminate H.
  - intros H. vm_compute in H. discriminate H.
  - repeat constructor.
  - intros H. apply occursb_spec in H. vm_compute in H. discriminate H.
  - intros H. vm_compute in H. discriminate H.
Defined.

(** ** What an artifact can contain *)

(** X3: the body [extract_code_block] returns has no triple backtick in it,
    and a filename it returns is a single line with no white space at
    either end and no triple backtick in it. *)
Theorem artifact_shape (text : pystr) (d : gmap string pyval) :
  extract_code_block text = Return d ->
  no_fence (format_val (get d "code"))
  /\ forall name, get d "filename" = PStr name ->
       stripped name /\ one_line name /\ no_fence name.
Proof.
  intros Hext.
  destruct (extract_code_block_inv _ _ Hext)
    as [[_ ->] | [(g & Hs & ->)
                 | (g & line0 & rest & after & Hs & Hlines & Hafter & ->)]].
  - split; [apply no_fence_nil | done].
  - rewrite get_filename_insert, get_code_insert. split; [| done].
    destruct (re_search_Some _ _ Hs) as [body Hbody].
    by eapply until_fence_no_fence.
  - rewrite get_filename_insert, get_code_insert. cbn [format_val].
    destruct (re_search_Some _ _ Hs) as [body Hbody].
    pose proof (until_fence_no_fence _ _ Hbody) as Hg.
    destruct (splitlines_cut g) as [Hcut _]. rewrite Hlines in Hcut.
    apply Forall_cons in Hcut as [Hline0 Hrest].
    pose proof (splitlines_one_line g) as Hol. rewrite Hlines in Hol.
    apply Forall_cons in Hol as [Hol0 _].
    split.
    + apply no_fence_join. eapply Forall_impl; [exact Hrest |].
      intros l Hl. exact (no_fence_sub l g Hl Hg).
    + intros name [= <-].
      assert (occurs_in (strip after) line0) as Hocc.
      { destruct (split_once_second _ _ _ Hafter) as [a Ha].
        eapply occurs_in_trans; [apply strip_occurs |].
        eapply occurs_in_trans; [| apply strip_occurs].
        rewrite Ha. exists (a ++ [COLON]), [].
        by rewrite app_nil_r, <- app_assoc. }
      split; [apply stripped_strip |]. split.
      * by eapply one_line_sub.
      * eapply no_fence_sub; [| exact Hg]. by eapply occurs_in_trans.
Qed.

(** X3 at work on a block with a padded filename line. *)
Lemma artifact_shape_witness :
  stripped (lit "src/app.py") /\ one_line (lit "src/app.py")
  /\ no_fence (lit "x = 1").
Proof.
  destruct (artifact_shape (lit "```py\n  # File:  src/app.py  \nx = 1\n```")
              (<[ "filename" := PStr (lit "src/app.py") ]>
               {[ "code" := PStr (lit "x = 1") ]}))
    as [Hbody Hname]; [vm_compute; reflexivity |].
  destruct (Hname (lit "src/app.py") eq_refl) as (Hs & Hl & _).
  split; [exact Hs | split; [exact Hl | exact Hbody]].
Defined.

(** ** The shell tool, further *)

(** X4: a command the policy accepts begins with a lower-case ASCII letter:
    the empty command, a command with white space in front and a
    capitalised command are all rejected. *)
Theorem allowed_command_head (command : pystr) :
  command_allowed command = true ->
  exists c rest, command = c :: rest
                 /\ (97 <= c <= 122) /\ is_space c = false.
Proof.
  intros (p & rest & Hp & ->)%command_allowed_spec.
  unfold allowed_prefixes in Hp.
  repeat (apply elem_of_cons in Hp as [-> | Hp];
          [eexists _, _; split; [reflexivity |]; by vm_compute |]).
  by apply elem_of_nil in Hp.
Qed.

(** X4 at work on [cat notes.txt]. *)
Lemma allowed_command_head_witness :
  exists c rest, lit "cat notes.txt" = c :: rest
                 /\ (97 <= c <= 122) /\ is_space c = false.
Proof.
  apply (allowed_command_head (lit "cat notes.txt")). vm_compute. reflexivity.
Defined.

(** X5: the policy message is returned for rejected commands only: whatever
    the process prints and however the run fails, the result of a command
    that passed the policy test is a different string, so a caller can tell
    a refusal from an execution. *)
Theorem policy_rejection_is_distinct
    (shlex_split : pystr -> exc (list pystr))
    (subprocess_run : list pystr -> pystr -> N -> exc CompletedProcess)
    (command : pystr) :
  run_shell_tool shlex_split subprocess_run command = Return policy_rejection
  <-> command_allowed command = false.
Proof.
  split; [| apply run_shell_tool_rejected].
  destruct (command_allowed command) eqn:Ha; [| done].
  rewrite run_shell_tool_allowed by done.
  unfold run_shell_body, try_except.
  destruct (shlex_split command) as [argv | e]; cbn [mbind exc_bind].
  - destruct (subprocess_run argv WORK_DIR_str 30) as [res | e];
      cbn [mbind exc_bind].
    + by intros [=].
    + destruct (is_Exception (exn_cls e)); [| done]. by intros [=].
  - destruct (is_Exception (exn_cls e)); [| done]. by intros [=].
Qed.

(** ** The guard accepts what stays inside *)

Lemma split_on_app (sep : N) (a r : pystr) :
  sep ∉ a -> split_on sep (a ++ sep :: r) = a :: split_on sep r.
Proof.
  induction a as [|c a IH]; intros Ha.
  - cbn [app split_on]. by rewrite N.eqb_refl.
  - cbn [app split_on].
    destruct (c =? sep) eqn:Hc.
    + apply N.eqb_eq in Hc as ->. exfalso. apply Ha. by left.
    + rewrite IH; [done |]. intros ?. apply Ha. by right.
Qed.

Lemma foldl_step_down (acc ps : list pystr) :
  Forall (fun x => x <> [DOT; DOT]) ps ->
  foldl step_component acc ps = acc ++ ps.
Proof.
  intros H. revert acc. induction H as [|x ps Hx _ IH]; intros acc.
  - by rewrite app_nil_r.
  - cbn [foldl]. rewrite step_component_down by done.
    by rewrite IH, <- app_assoc.
Qed.

Lemma joinpath_WORK_DIR_relative (rel_path : pystr) :
  startswith rel_path [SLASH] = false ->
  joinpath WORK_DIR rel_path
  = (Relative, lit "workspace" :: filter is_part (split_on SLASH rel_path)).
Proof.
  intros Hrel. unfold joinpath.
  change (str_of_path WORK_DIR) with (lit "workspace").
  unfold posix_join. rewrite Hrel.
  change (bool_decide (lit "workspace" = [])
          || startswith (rev (lit "workspace")) [SLASH]) with false.
  cbv iota. unfold Path.
  change (lit "workspace" ++ [SLASH] ++ rel_path)
    with (lit "workspace" ++ SLASH :: rel_path).
  rewrite split_on_app.
  - by rewrite filter_cons_True.
  - intros H. vm_compute in H.
    repeat (apply elem_of_cons in H as [H | H]; [discriminate H |]).
    by apply elem_of_nil in H.
Qed.

Lemma split_on_elem (sep c : N) (s x : pystr) :
  c ∉ s -> x ∈ split_on sep s -> c ∉ x.
Proof.
  revert x. induction s as [|a s IH]; intros x Hc.
  - cbn [split_on]. by intros ->%list_elem_of_singleton.
  - assert (c ∉ s) as Hs by (intros ?; apply Hc; by right).
    assert (c <> a) as Ha by (intros ->; apply Hc; by left).
    cbn [split_on]. destruct (a =? sep).
    + intros [-> | Hx]%elem_of_cons; [by intros ?%elem_of_nil | by apply IH].
    + destruct (split_on sep s) as [|l ls].
      * intros ->%list_elem_of_singleton.
        by intros [-> | ?%elem_of_nil]%elem_of_cons.
      * intros [-> | Hx]%elem_of_cons.
        -- intros [-> | Hl]%elem_of_cons; [done |].
           apply (IH l Hs); [by left | done].
        -- apply IH; [done | by right].
Qed.

Lemma has_nul_false (ps : list pystr) :
  (forall x, x ∈ ps -> 0 ∉ x) -> has_nul ps = false.
Proof.
  intros H. unfold has_nul. destruct (existsb _ ps) eqn:He; [| done].
  apply existsb_exists in He as (x & Hx%list_elem_of_In & H0).
  apply bool_decide_eq_true in H0. by apply H in Hx.
Qed.

(** X6: the guard refuses no plain name.  Under every working directory
    (with resolution on a file system without symbolic links), a relative
    name that the operating system can take (no NUL character, no
    surrogate) and none of whose components is [..] is accepted, and the
    path returned is the sandbox root followed by the components of the
    name. *)
Theorem safe_path_accepts_plain_names (cwd : list pystr) (rel_path : pystr) :
  startswith rel_path [SLASH] = false ->
  0 ∉ rel_path -> utf8_encodable rel_path = true ->
  Forall (fun x => x <> [DOT; DOT]) (split_on SLASH rel_path) ->
  safe_path (resolve_in cwd) rel_path
  = Return (Root, (foldl step_component [] cwd ++ [lit "workspace"])
                  ++ filter is_part (split_on SLASH rel_path)).
Proof.
  intros Hrel Hnul _ Hplain.
  assert (Forall (fun x => x <> [DOT; DOT])
            (filter is_part (split_on SLASH rel_path))) as Hparts.
  { apply Forall_forall. intros x [_ Hx]%list_elem_of_filter.
    by eapply Forall_forall in Hplain. }
  assert (has_nul (lit "workspace" :: filter is_part (split_on SLASH rel_path))
          = false) as Hok.
  { apply has_nul_false. intros x [-> | [_ Hx]%list_elem_of_filter]%elem_of_cons.
    - intros H. vm_compute in H.
      repeat (apply elem_of_cons in H as [H | H]; [discriminate H |]).
      by apply elem_of_nil in H.
    - by eapply split_on_elem. }
  unfold safe_path.
  rewrite joinpath_WORK_DIR_relative, resolve_in_WORK_DIR by done.
  unfold resolve_in. cbn [fst snd]. rewrite Hok. cbn [mbind exc_bind].
  rewrite foldl_app. cbn [foldl].
  rewrite (step_component_down _ (lit "workspace")) by lit_neq.
  rewrite (foldl_step_down _ (filter is_part _)) by done.
  destruct (filter is_part (split_on SLASH rel_path)) as [|x ps].
  - rewrite app_nil_r. rewrite (bool_decide_eq_true_2 (_ = _)) by done.
    by rewrite andb_false_r.
  - rewrite bool_decide_eq_true_2; [done |].
    apply elem_of_parents. cbn [fst snd]. split; [done |].
    by exists (x :: ps).
Qed.

(** X6 at work in [/home/u] on [src/./pkg//mod.py]. *)
Lemma safe_path_accepts_plain_names_witness :
  safe_path (resolve_in [lit "home"; lit "u"]) (lit "src/./pkg//mod.py")
  = Return (Root, [lit "home"; lit "u"; lit "workspace";
                   lit "src"; lit "pkg"; lit "mod.py"]).
Proof.
  rewrite (safe_path_accepts_plain_names [lit "home"; lit "u"]
             (lit "src/./pkg//mod.py")).
  - vm_compute. reflexivity.
  - vm_compute. reflexivity.
  - intros H. vm_compute in H.
    repeat (apply elem_of_cons in H as [H | H]; [discriminate H |]).
    by apply elem_of_nil in H.
  - vm_compute. reflexivity.
  - vm_compute. repeat constructor; lit_neq.
Defined.

(** ** The file tool, further *)

Lemma mkdir_chain_blocked (chain : list PurePath) (f : gmap PurePath node)
    (q : PurePath) (c : pystr) :
  q ∈ chain -> stat f q = Some (File c) ->
  exists e, mkdir_chain chain f = Raise e /\ is_Exception (exn_cls e) = true.
Proof.
  revert f. induction chain as [|q0 chain IH]; intros f Hq Hfile.
  - by apply elem_of_nil in Hq.
  - cbn [mkdir_chain]. destruct (stat f q0) as [[|c0] |] eqn:Hq0.
    + apply elem_of_cons in Hq as [-> | Hq]; [congruence | by apply IH].
    + destruct chain; by eexists.
    + apply elem_of_cons in Hq as [-> | Hq]; [congruence |].
      apply IH; [done |]. rewrite stat_insert; [done |].
      intros ->. congruence.
Qed.

Lemma mkdir_chain_noop (chain : list PurePath) (f : gmap PurePath node) :
  (forall q, q ∈ chain -> stat f q = Some Dir) ->
  mkdir_chain chain f = Return f.
Proof.
  induction chain as [|q0 chain IH]; intros Hdirs; [done |].
  cbn [mkdir_chain]. rewrite Hdirs by (by left).
  apply IH. intros q Hq. apply Hdirs. by right.
Qed.

Lemma parents_nonempty (p q : PurePath) : q ∈ parents p -> p.2 <> [].
Proof.
  intros (_ & k & Hk & Heq)%elem_of_parents Hnil.
  rewrite Hnil in Heq. symmetry in Heq.
  by apply app_eq_nil in Heq as [_ ->].
Qed.

(** X7: a regular file where a directory is needed stops the write.  When
    the guard accepts the path but one of its parents is a regular file,
    [write_file_tool] raises the error of the failed directory creation
    and leaves the world as it was. *)
Theorem write_blocked_by_file
    (resolve : PurePath -> exc PurePath)
    (name text : pystr) (w : world) (p q : PurePath) (c : pystr) :
  name <> [] -> text <> [] ->
  safe_path resolve name = Return p ->
  q ∈ parents p -> stat (files w) q = Some (File c) ->
  exists e,
    write_file_tool resolve (Some name) (Some text) w = (Raise e, w)
    /\ is_Exception (exn_cls e) = true.
Proof.
  intros Hname Htext Hsafe Hq Hfile.
  destruct (mkdir_chain_blocked (rev (parents (parent p)) ++ [parent p])
              (files w) q c) as (e & Hmk & He); [| done |].
  { apply elem_of_parent_chain; [by eapply parents_nonempty | done]. }
  exists e. split; [| done].
  assert (not_arg (Some name) || not_arg (Some text) = false) as Hargs.
  { by destruct name, text. }
  unfold write_file_tool. rewrite Hargs. cbn [default].
  unfold id, mbind, io_bind, lift. rewrite Hsafe.
  unfold mkdir_parents. by rewrite Hmk.
Qed.

(** X7 at work: [/home/u/workspace/a] is a regular file, the write goes to
    [a/b.txt]. *)
Lemma write_blocked_by_file_witness :
  exists e,
    write_file_tool (resolve_in [lit "home"; lit "u"])
      (Some (lit "a/b.txt")) (Some (lit "hi"))
      (World {[ (Root, [lit "home"; lit "u"; lit "workspace"; lit "a"])
                := File (lit "old") ]} [] [] [])
    = (Raise e,
       World {[ (Root, [lit "home"; lit "u"; lit "workspace"; lit "a"])
                := File (lit "old") ]} [] [] [])
    /\ is_Exception (exn_cls e) = true.
Proof.
  apply (write_blocked_by_file (resolve_in [lit "home"; lit "u"])
           (lit "a/b.txt") (lit "hi") _
           (Root, [lit "home"; lit "u"; lit "workspace"; lit "a"; lit "b.txt"])
           (Root, [lit "home"; lit "u"; lit "workspace"; lit "a"])
           (lit "old")).
  - lit_neq.
  - lit_neq.
  - vm_compute. reflexivity.
  - apply elem_of_parents. cbn [fst snd]. split; [done |].
    by exists [lit "b.txt"].
  - unfold stat. cbn [snd files]. by rewrite lookup_singleton_eq.
Defined.

(** X8: writing the same content to the same name twice is the same as
    writing it once: the second call returns the same message and leaves the
    world the first call made. *)
Theorem write_file_tool_idempotent
    (resolve : PurePath -> exc PurePath)
    (name text : pystr) (w : world) (p : PurePath) :
  name <> [] -> text <> [] ->
  safe_path resolve name = Return p ->
  (forall q, q ∈ parents p -> forall c, stat (files w) q <> Some (File c)) ->
  stat (files w) p <> Some Dir ->
  utf8_encodable text = true ->
  exists msg w',
    write_file_tool resolve (Some name) (Some text) w = (Return msg, w')
    /\ write_file_tool resolve (Some name) (Some text) w' = (Return msg, w').
Proof.
  intros Hname Htext Hsafe Hfree Hfile Henc.
  destruct (write_file_tool_writes resolve name text w p)
    as (w' & Hrun & Hp & Hdirs & _); [done .. |].
  exists (lit "Wrote file: " ++ str_of_path p), w'. split; [done |].
  assert (p.2 <> []) as Hps.
  { intros Hnil. apply Hfile. unfold stat. by rewrite Hnil. }
  assert (stat (files w') p = Some (File text)) as Hstat.
  { unfold stat. rewrite Hp. by destruct (p.2). }
  assert (not_arg (Some name) || not_arg (Some text) = false) as Hargs.
  { by destruct name, text. }
  unfold write_file_tool. rewrite Hargs. cbn [default].
  unfold id, mbind, io_bind, lift. rewrite Hsafe.
  unfold mkdir_parents. rewrite mkdir_chain_noop.
  - unfold write_text. cbn [files set_files].
    rewrite Hstat, Hdirs, Henc.
    + rewrite insert_id by done. by destruct w'.
    + apply elem_of_parent_chain; [done |].
      rewrite elem_of_app, list_elem_of_singleton. by right.
  - intros q Hq. apply Hdirs. by apply elem_of_parent_chain.
Qed.

(** X8 at work on the write of C6. *)
Lemma write_file_tool_idempotent_witness :
  exists msg w',
    write_file_tool (resolve_in [lit "home"; lit "u"])
      (Some (lit "a/b.txt")) (Some (lit "hi")) (World ∅ [] [] [])
    = (Return msg, w')
    /\ write_file_tool (resolve_in [lit "home"; lit "u"])
         (Some (lit "a/b.txt")) (Some (lit "hi")) w' = (Return msg, w').
Proof.
  apply (write_file_tool_idempotent (resolve_in [lit "home"; lit "u"])
           (lit "a/b.txt") (lit "hi") (World ∅ [] [] [])
           (Root, [lit "home"; lit "u"; lit "workspace"; lit "a"; lit "b.txt"])).
  - lit_neq.
  - lit_neq.
  - vm_compute. reflexivity.
  - intros q _ c. unfold stat. cbn [files].
    destruct (q.2); [discriminate | by rewrite lookup_empty].
  - unfold stat. cbn [files snd]. by rewrite lookup_empty.
  - vm_compute. reflexivity.
Defined.

(** ** The steps after the chat, further *)


Lemma io_bind_eq {A B} (c : io A) (k : A -> io B) (w : world) (a : A)
    (w' : world) :
  c w = (Return a, w') -> (c ≫= k) w = k a w'.
Proof. intros H. unfold mbind, io_bind. by rewrite H. Qed.



(** The text handed to the parser when [m] is the last Developer message. *)
Lemma developer_text (dev_msgs : list (gmap string pyval))
    (m : gmap string pyval) :
  last dev_msgs = Some m ->
  (if bool_decide (dev_msgs = []) then Return []
   else m' ← last_item dev_msgs; v ← subscript m' "content"; as_str v)
  = (v ← subscript m "content"; as_str v).
Proof.
  intros Hlast. rewrite bool_decide_eq_false_2.
  - unfold last_item. by rewrite Hlast.
  - by intros ->.
Qed.

Lemma last_developer (pre post : list (gmap string pyval))
    (m : gmap string pyval) :
  is_developer m = true ->
  Forall (fun m' => is_developer m' = false) post ->
  last (filter (fun m' => is_developer m' = true) (pre ++ m :: post)) = Some m.
Proof.
  intros Hm Hpost.
  rewrite filter_app, filter_cons_True by done.
  rewrite (no_developer_messages post) by done. apply last_snoc.
Qed.

(** X9: the artifact comes from the last Developer message.  Whatever was
    said before it, and whatever the other speakers said after it, the steps
    after the chat run as if that message were the whole transcript. *)
Theorem last_developer_message_wins
    (resolve : PurePath -> exc PurePath)
    (pre post : list (gmap string pyval)) (m : gmap string pyval) (w : world) :
  is_developer m = true ->
  Forall (fun m' => is_developer m' = false) post ->
  main_after_chat resolve (pre ++ m :: post) w
  = main_after_chat resolve [m] w.
Proof.
  intros Hm Hpost. unfold main_after_chat.
  rewrite (developer_text _ m) by (by apply last_developer).
  by rewrite (developer_text _ m) by (by apply (last_developer [] [])).
Qed.

(** X9 at work: an earlier Developer draft and a later QA reply. *)
Lemma last_developer_message_wins_witness :
  main_after_chat (resolve_in [lit "home"; lit "u"])
    ([ {[ "name" := PStr (lit "Developer");
          "content" := PStr (lit "```\ndraft\n```") ]} ]
     ++ {[ "name" := PStr (lit "developer"); "content" := PStr (lit "no code") ]}
     :: [ {[ "name" := PStr (lit "QAEngineer");
             "content" := PStr (lit "```\ntest\n```") ]} ])
    (World ∅ [] [] [])
  = main_after_chat (resolve_in [lit "home"; lit "u"])
      [ {[ "name" := PStr (lit "developer"); "content" := PStr (lit "no code") ]} ]
      (World ∅ [] [] []).
Proof.
  apply last_developer_message_wins.
  - vm_compute. reflexivity.
  - repeat constructor.
Defined.

Section WithCode.
Variable resolve : PurePath -> exc PurePath.
Variable messages : list (gmap string pyval).
Variables (m parsed : gmap string pyval) (content code : pystr) (w : world).

Hypothesis Hlast :
  last (filter (fun m' => is_developer m' = true) messages) = Some m.
Hypothesis Hcontent : m !! "content" = Some (PStr content).
Hypothesis Hparsed : extract_code_block content = Return parsed.
Hypothesis Hcode : parsed !! "code" = Some (PStr code).
Hypothesis Hne : code <> [].


End WithCode.

Section AfterChatWithCode.
Variable resolve : PurePath -> exc PurePath.
Variable messages : list (gmap string pyval).
Variables (m parsed : gmap string pyval) (content code : pystr) (w : world).
Variables (answer : pystr) (kb : list pystr).

Hypothesis Hlast :
  last (filter (fun m' => is_developer m' = true) messages) = Some m.
Hypothesis Hcontent : m !! "content" = Some (PStr content).
Hypothesis Hparsed : extract_code_block content = Return parsed.
Hypothesis Hcode : parsed !! "code" = Some (PStr code).
Hypothesis Hne : code <> [].

End AfterChatWithCode.









Section AfterSave.
Variable resolve : PurePath -> exc PurePath.
Variable messages : list (gmap string pyval).
Variables (m parsed : gmap string pyval) (content code : pystr) (w : world).

Hypothesis Hlast :
  last (filter (fun m' => is_developer m' = true) messages) = Some m.
Hypothesis Hcontent : m !! "content" = Some (PStr content).
Hypothesis Hparsed : extract_code_block content = Return parsed.
Hypothesis Hcode : parsed !! "code" = Some (PStr code).
Hypothesis Hne : code <> [].



End AfterSave.










(** ** The transcript *)

Lemma join_app (sep : pystr) (l1 l2 : list pystr) :
  l1 <> [] -> l2 <> [] ->
  join sep (l1 ++ l2) = join sep l1 ++ sep ++ join sep l2.
Proof.
  intros H1 H2. induction l1 as [|x [|y l1] IH]; [done | |].
  - by destruct l2.
  - change (join sep ((x :: y :: l1) ++ l2))
      with (x ++ sep ++ join sep ((y :: l1) ++ l2)).
    rewrite IH by done. cbn [join]. by rewrite <- !app_assoc.
Qed.

Lemma save_transcript_writes (messages : list (gmap string pyval)) (w : world) :
  stat (files w) (transcript_path w) <> Some Dir ->
  stat (files w) (parent (transcript_path w)) = Some Dir ->
  utf8_encodable (transcript_text messages) = true ->
  save_transcript messages w
  = (Return tt,
     World (<[transcript_path w := File (transcript_text messages)]> (files w))
       (console w
        ++ [Printed (transcript_notice ++ str_of_path (transcript_path w)
                     ++ [LF])])
       (keyboard w) (now w)).
Proof.
  intros Hfile Hdir Henc. unfold save_transcript.
  rewrite (io_bind_eq strftime _ _ (now w) w eq_refl).
  fold (transcript_path w). fold (transcript_text messages).
  rewrite (io_bind_eq (write_text _ _) _ _ tt
             (set_files (<[transcript_path w := File (transcript_text messages)]>
                           (files w)) w)).
  - reflexivity.
  - unfold write_text. rewrite Hdir, Henc.
    by destruct (stat (files w) (transcript_path w)) as [[|?] |].
Qed.

(** X14: the transcript keeps the order of the conversation.  With
    [transcripts/] in place, [save_transcript] writes one file,
    [transcripts/session-<timestamp>.md], and prints one notice; the text of
    a conversation that went on is the text so far, a line feed, and the
    text of what followed, and no message gives the empty file. *)
Theorem transcript_in_order
    (earlier later : list (gmap string pyval)) (w : world) :
  stat (files w) (transcript_path w) <> Some Dir ->
  stat (files w) (parent (transcript_path w)) = Some Dir ->
  utf8_encodable (transcript_text (earlier ++ later)) = true ->
  (exists w',
     save_transcript (earlier ++ later) w = (Return tt, w')
     /\ files w' !! transcript_path w
        = Some (File (transcript_text (earlier ++ later)))
     /\ (forall q, q <> transcript_path w -> files w' !! q = files w !! q)
     /\ keyboard w' = keyboard w)
  /\ (earlier <> [] -> later <> [] ->
      transcript_text (earlier ++ later)
      = transcript_text earlier ++ [LF] ++ transcript_text later)
  /\ transcript_text [] = [].
Proof.
  intros Hfile Hdir Henc. split; [| split; [| done]].
  - eexists. split; [by apply save_transcript_writes |].
    cbn [files keyboard]. split; [apply lookup_insert_eq |].
    split; [| done]. intros q Hq. by rewrite lookup_insert_ne.
  - intros H1 H2. unfold transcript_text. rewrite map_app.
    apply join_app; by destruct earlier, later.
Qed.

(** X14 at work on the operator's request and the manager's reply. *)
Lemma transcript_in_order_witness :
  transcript_text
    ([ {[ "name" := PStr (lit "Human"); "content" := PStr (lit "hi") ]} ]
     ++ [ {[ "role" := PStr (lit "assistant"); "content" := PNone ]} ])
  = lit "### Human\n\nhi\n\n---\n\n### assistant\n\nNone\n\n---\n".
Proof.
  destruct (transcript_in_order
    [ {[ "name" := PStr (lit "Human"); "content" := PStr (lit "hi") ]} ]
    [ {[ "role" := PStr (lit "assistant"); "content" := PNone ]} ]
    (World {[ TRANSCRIPTS_DIR := Dir ]} [] [] (lit "20250830-083606")))
    as (_ & Happ & _).
  - intros H. vm_compute in H. discriminate H.
  - vm_compute. reflexivity.
  - vm_compute. reflexivity.
  - rewrite Happ by done. vm_compute. reflexivity.
Defined.

(** ** The whole run *)


Section MainFacts.
Variable resolve : PurePath -> exc PurePath.
Variable group_chat : pystr -> io (list (gmap string pyval)).

Lemma main_to_chat (w : world) (feature : pystr) (kb : list pystr) :
  keyboard w = feature :: kb ->
  main resolve group_chat w
  = (messages ← group_chat (kickoff feature);
     _ ← main_after_chat resolve messages;
     _ ← save_transcript messages;
     print (lit "Done.\n")) (after_request w kb).
Proof.
  intros Hkb. unfold main.
  rewrite (io_bind_eq (print _) _ _ tt _ eq_refl).
  rewrite (io_bind_eq (input _) _ _ feature (after_request w kb)).
  - reflexivity.
  - unfold input, after_request. cbn [files console keyboard now].
    rewrite Hkb. by rewrite <- app_assoc.
Qed.
End MainFacts.

Lemma main_after_chat_without_developer
    (resolve : PurePath -> exc PurePath)
    (messages : list (gmap string pyval)) (w : world) :
  Forall (fun m => is_developer m = false) messages ->
  main_after_chat resolve messages w
  = (Return tt,
     World (files w) (console w ++ [Printed (lit "No code found to save.")])
       (keyboard w) (now w)).
Proof.
  intros Hnone. unfold main_after_chat. by rewrite no_developer_messages.
Qed.

(** X15: a run without Developer output still saves its transcript.  When
    the chat returns a transcript with no Developer message and
    [transcripts/] is in place, [main] ends normally: after the chat it
    prints [No code found to save.], writes the transcript file and nothing
    else, prints the notice and [Done.], and reads no further input. *)
Theorem main_without_code_saves_transcript
    (resolve : PurePath -> exc PurePath)
    (group_chat : pystr -> io (list (gmap string pyval)))
    (w w2 : world) (feature : pystr) (kb : list pystr)
    (messages : list (gmap string pyval)) :
  keyboard w = feature :: kb ->
  group_chat (kickoff feature) (after_request w kb) = (Return messages, w2) ->
  Forall (fun m => is_developer m = false) messages ->
  stat (files w2) (transcript_path w2) <> Some Dir ->
  stat (files w2) (parent (transcript_path w2)) = Some Dir ->
  utf8_encodable (transcript_text messages) = true ->
  main resolve group_chat w
  = (Return tt,
     World (<[transcript_path w2 := File (transcript_text messages)]> (files w2))
       (console w2
        ++ [Printed (lit "No code found to save.");
            Printed (transcript_notice ++ str_of_path (transcript_path w2)
                     ++ [LF]);
            Printed (lit "Done.\n")])
       (keyboard w2) (now w2)).
Proof.
  intros Hkb Hchat Hnone Hfile Hdir Henc.
  rewrite (main_to_chat resolve group_chat w feature kb Hkb).
  rewrite (io_bind_eq _ _ _ _ _ Hchat).
  rewrite (io_bind_eq _ _ _ _ _
             (main_after_chat_without_developer resolve messages w2 Hnone)).
  rewrite (io_bind_eq _ _ _ _ _
             (save_transcript_writes messages
                (World (files w2)
                   (console w2 ++ [Printed (lit "No code found to save.")])
                   (keyboard w2) (now w2))
                Hfile Hdir Henc)).
  unfold print. cbn [files console keyboard now].
  by rewrite <- !app_assoc.
Qed.

(** X15 at work: the chat ends after the operator's own message. *)
Lemma main_without_code_saves_transcript_witness :
  exists w',
    main (resolve_in [lit "home"; lit "u"])
      (fun msg w => (Return [ {[ "name" := PStr (lit "Human");
                                 "content" := PStr msg ]} ], w))
      (World {[ TRANSCRIPTS_DIR := Dir ]} [] [lit "reverse a string"]
         (lit "20250830-083606"))
    = (Return tt, w')
    /\ files w' !! (Relative, [lit "transcripts";
                               lit "session-20250830-083606.md"])
       = Some (File (transcript_text
                       [ {[ "name" := PStr (lit "Human");
                            "content" := PStr (kickoff (lit "reverse a string")) ]} ])).
Proof.
  eexists. split.
  - apply (main_without_code_saves_transcript
             (resolve_in [lit "home"; lit "u"])
             (fun msg w => (Return [ {[ "name" := PStr (lit "Human");
                                        "content" := PStr msg ]} ], w))
             (World {[ TRANSCRIPTS_DIR := Dir ]} [] [lit "reverse a string"]
                (lit "20250830-083606"))
             (after_request
                (World {[ TRANSCRIPTS_DIR := Dir ]} [] [lit "reverse a string"]
                   (lit "20250830-083606")) [])
             (lit "reverse a string") []).
    + reflexivity.
    + reflexivity.
    + repeat constructor.
    + intros H. vm_compute in H. discriminate H.
    + vm_compute. reflexivity.
    + vm_compute. reflexivity.
  - cbn [files]. apply lookup_insert_eq.
Defined.



(** ** Provider configuration *)

(** X17: [build_llm_config] always returns one configuration entry with a
    model name and the temperature [0.2].  The entry has a [base_url]
    exactly when [MODEL_PROVIDER], compared without regard to case, is
    [ollama]; every other value, and no value at all, selects the OpenAI
    entry.  A missing credential is no error: the [api_key] is [None]
    exactly when the OpenAI entry is selected and [OPENAI_API_KEY] is not
    set. *)
Theorem llm_config_shape (env : gmap string pystr) :
  let local :=
    lower (format_val (getenv env "MODEL_PROVIDER" (PStr (lit "openai"))))
    = lit "ollama" in
  exists entry,
    config_list (build_llm_config env) = [entry]
    /\ temperature (build_llm_config env) = lit "0.2"
    /\ (exists model, entry !! "model" = Some (PStr model))
    /\ (is_Some (entry !! "base_url") <-> local)
    /\ (entry !! "api_key" = Some PNone <->
        ~ local /\ env !! "OPENAI_API_KEY" = None)
    /\ is_Some (entry !! "api_key").
Proof.
  cbv zeta. unfold build_llm_config. case_bool_decide as Hlocal.
  - eexists. split; [reflexivity |]. split; [reflexivity |].
    cbn [config_list]. split; [| split; [| split]].
    + rewrite lookup_insert_eq. unfold getenv.
      destruct (env !! "OLLAMA_MODEL"); by eexists.
    + split; [done |]. intros _.
      rewrite lookup_insert_ne, lookup_insert_ne, lookup_singleton_eq by done.
      by eexists.
    + rewrite lookup_insert_ne, lookup_insert_eq by done. unfold getenv.
      split; [| by intros [? _]].
      by destruct (env !! "OLLAMA_API_KEY").
    + rewrite lookup_insert_ne, lookup_insert_eq by done. by eexists.
  - eexists. split; [reflexivity |]. split; [reflexivity |].
    cbn [config_list]. split; [| split; [| split]].
    + rewrite lookup_insert_eq. unfold getenv.
      destruct (env !! "OPENAI_MODEL"); by eexists.
    + rewrite lookup_insert_ne, lookup_singleton_ne by done.
      split; [by intros [? ?] | done].
    + rewrite lookup_insert_ne, lookup_singleton_eq by done. unfold getenv.
      destruct (env !! "OPENAI_API_KEY"); split; try done.
      * by intros [_ ?].
    + rewrite lookup_insert_ne, lookup_singleton_eq by done. by eexists.
Qed.
